(** * LinePlanner: capacity planning and lane placement of the layout generator

    A shallow embedding of [generateLayout] (src/unnamed/part_002) and of the
    capacity planner it consumes ([calculateMachineRequirements], imported
    from [./lineBalancing]).

    Modelling conventions.
    - Along-line and across-line lengths are JavaScript numbers in metres.
      Every length constant of the source is a multiple of 0.1 m and the code
      only adds these constants, multiplies them by integers and takes
      maxima, so every coordinate it computes is an integer number of
      decimetres. Lengths are therefore [Z] in decimetres: [2.0] is [20],
      [1.5] is [15], [-1.2] is [-12].
    - Yaw angles are the four named constants of the source
      ([ROT_FACE_FRONT] = -pi/2, ...); [rotation.x] and [rotation.z] are
      always [0] and are not represented.
    - [uuidv4()] is the [n]-th value of a random supply [uuidv4 : nat -> string];
      the state counts how many values have been drawn.
    - [toLowerCase] is modelled on ASCII letters.

    Later parts embed the OB sheet parser (src/unnamed/part_001), the
    model and footprint helpers (Machine3D.tsx, dimensions.ts), the
    line store (useLineStore.ts) and the camera controller (part_003). *)

From Stdlib Require Import ZArith QArith Qround List String Ascii Bool Lia Arith DecimalString DecimalNat Qminmax Lqa.
Import ListNotations.

Open Scope string_scope.
Open Scope Z_scope.
Open Scope list_scope.

(* ------------------------------------------------------------------ *)
(** ** Strings: [toLowerCase] and [includes] *)

Definition lower_ascii (c : ascii) : ascii :=
  let n := nat_of_ascii c in
  if (65 <=? n)%nat && (n <=? 90)%nat then ascii_of_nat (n + 32) else c.

Fixpoint toLowerCase (s : string) : string :=
  match s with
  | EmptyString => EmptyString
  | String c s' => String (lower_ascii c) (toLowerCase s')
  end.

(** [s.includes(sub)] *)
Fixpoint includes (s sub : string) : bool :=
  prefix sub s ||
  match s with
  | EmptyString => false
  | String _ s' => includes s' sub
  end.

(* ------------------------------------------------------------------ *)
(** ** Data model (src/src/types/index.ts) *)

Record Operation := mkOperation {
  op_no : string;
  op_name : string;
  machine_type : string;
  smv : Q;
  section : string
}.

(** The items returned by [calculateMachineRequirements]: [{ operation, count }]. *)
Record BalancedOp := mkBalancedOp {
  operation : Operation;
  count : nat
}.

Inductive Lane := LA | LB | LC | LD.

Definition Lane_eq_dec (l1 l2 : Lane) : {l1 = l2} + {l1 <> l2}.
Proof. decide equality. Defined.

Inductive Yaw := ROT_FACE_FRONT | ROT_FACE_BACK | ROT_FACE_LEFT | ROT_FACE_RIGHT.

(** The shapes of the [id] template strings:
    [`${op.op_no}-${countIdx}-${uuidv4()}`], [`board-${name}-${uuidv4()}`],
    [`inspect-${secName}`] and [`trolley-${secName}`]. *)
Inductive EntityId :=
| IdMachine (opno : string) (countIdx : nat) (uuid : string)
| IdBoard (name : string) (uuid : string)
| IdInspect (secName : string)
| IdTrolley (secName : string).

Record MachinePosition := mkMachinePosition {
  id : EntityId;
  mp_operation : Operation;
  position_x : Z;
  position_y : Z;
  position_z : Z;
  rotation_y : Yaw;
  lane : Lane;
  mp_section : string;
  machineIndex : option Z;   (* absent on inspection tables and trolleys *)
  isInspection : bool;       (* absent (false) except on inspection tables *)
  isTrolley : bool           (* absent (false) except on trolleys *)
}.

(** Machine-class entities: the ones pushed by [addMachine]. *)
Definition is_machine (e : MachinePosition) : bool :=
  match id e with IdMachine _ _ _ => true | _ => false end.

Definition is_board (e : MachinePosition) : bool :=
  match id e with IdBoard _ _ => true | _ => false end.

Definition machines (l : list MachinePosition) : list MachinePosition :=
  filter is_machine l.

(* ------------------------------------------------------------------ *)
(** ** Capacity planner *)

Inductive LayoutError := InvalidDemand.

Inductive result (A : Type) :=
| Ok (a : A)
| Error (e : LayoutError).
Arguments Ok {A} a.
Arguments Error {A} e.

(** Modelled from the spec: [calculateMachineRequirements] of
    [./lineBalancing], whose source is missing. Section 4.1: it fails with
    [InvalidDemand] unless [targetOutputPerDay > 0] and
    [workingMinutesPerDay > 0]; otherwise each operation, in input order,
    gets [requiredCount = ceil(smv * targetOutputPerDay / workingMinutesPerDay)],
    and never fewer than one machine ("requiredCount >= 1 always, even when
    T = 0"). *)
Definition calculateMachineRequirements (rawOperations : list Operation)
    (targetOutput workingMinutes : Q) : result (list BalancedOp) :=
  if Qle_bool targetOutput 0 || Qle_bool workingMinutes 0 then Error InvalidDemand
  else Ok (map (fun op =>
         {| operation := op;
            count := Z.to_nat (Z.max 1 (Qceiling (smv op * targetOutput / workingMinutes))) |})
         rawOperations).

(* ------------------------------------------------------------------ *)
(** ** Constants of part_002 (lengths in decimetres) *)

Definition LANE_Z_A : Z := -12.
Definition LANE_Z_B : Z := -28.
Definition LANE_Z_C : Z := 12.
Definition LANE_Z_D : Z := 28.

Definition MACHINE_SPACING_X : Z := 20.
Definition SECTION_GAP_X : Z := 20.
Definition BOARD_GAP : Z := 15.

Definition ROT_A_FACES_B := ROT_FACE_LEFT.
Definition ROT_B_FACES_A := ROT_FACE_RIGHT.
Definition ROT_C_FACES_D := ROT_FACE_RIGHT.
Definition ROT_D_FACES_C := ROT_FACE_LEFT.

Definition abSections : list string := ["cuff"; "sleeve"; "back"].
Definition cdSections : list string := ["collar"; "front"].
Definition assemblySection : string := "assembly".

(* ------------------------------------------------------------------ *)
(** ** Lane cursors and the generator state *)

Record LaneCursors := mkCursors { cur_A : Z; cur_B : Z; cur_C : Z; cur_D : Z }.

Definition get_cursor (c : LaneCursors) (l : Lane) : Z :=
  match l with LA => cur_A c | LB => cur_B c | LC => cur_C c | LD => cur_D c end.

(** [cursors[l] = v] *)
Definition set_cursor (c : LaneCursors) (l : Lane) (v : Z) : LaneCursors :=
  match l with
  | LA => mkCursors v (cur_B c) (cur_C c) (cur_D c)
  | LB => mkCursors (cur_A c) v (cur_C c) (cur_D c)
  | LC => mkCursors (cur_A c) (cur_B c) v (cur_D c)
  | LD => mkCursors (cur_A c) (cur_B c) (cur_C c) v
  end.

(** The mutable locals of one [generateLayout] call: the [layout] array,
    the [cursors] object and the number of [uuidv4()] values drawn. *)
Record St := mkSt { layout : list MachinePosition; cursors : LaneCursors; drawn : nat }.

Definition init_st : St := mkSt [] (mkCursors 0 0 0 0) 0.

Definition push (e : MachinePosition) (st : St) : St :=
  mkSt (layout st ++ [e]) (cursors st) (drawn st).

Definition with_cursors (c : LaneCursors) (st : St) : St :=
  mkSt (layout st) c (drawn st).

Definition createDummyOp (name sec : string) : Operation :=
  {| op_no := "00"; op_name := name; machine_type := name; smv := 0; section := sec |}.

Inductive Group := AB | CD.

Definition groupLanes (g : Group) : Lane * Lane :=
  match g with AB => (LA, LB) | CD => (LC, LD) end.

(** Math.floor(k / 3) and Math.ceil(count / 3) on non-negative integers. *)
Definition floor3 (k : nat) : Z := Z.of_nat k / 3.
Definition ceil3 (n : nat) : Z := (Z.of_nat n + 2) / 3.

(* ------------------------------------------------------------------ *)
(** ** [generateLayout] (src/unnamed/part_002) *)

Section Generator.

Variable uuidv4 : nat -> string.

(** [addMachine(op, lane, xPos, countIdx, forcedRot, sectionName)] *)
Definition addMachine (op : Operation) (ln : Lane) (xPos : Z) (countIdx : nat)
    (forcedRot : option Yaw) (sectionName : option string) (st : St) : St :=
  let '(z, ry0) :=
    match ln with
    | LA => (LANE_Z_A, ROT_A_FACES_B)
    | LB => (LANE_Z_B, ROT_B_FACES_A)
    | LC => (LANE_Z_C, ROT_C_FACES_D)
    | LD => (LANE_Z_D, ROT_D_FACES_C)
    end in
  let type := toLowerCase (machine_type op) in
  let ry1 := if includes type "iron" || includes type "inspection"
             then ROT_FACE_FRONT else ry0 in
  let ry := match forcedRot with Some r => r | None => ry1 end in
  let sec := match sectionName with
             | Some s => if String.eqb s "" then section op else s
             | None => section op
             end in
  mkSt (layout st ++
        [{| id := IdMachine (op_no op) countIdx (uuidv4 (drawn st));
            mp_operation := op;
            position_x := xPos; position_y := 0; position_z := z;
            rotation_y := ry;
            lane := ln;
            mp_section := sec;
            machineIndex := Some (Z.of_nat countIdx);
            isInspection := false; isTrolley := false |}])
       (cursors st) (S (drawn st)).

(** [addBoard(name, xPos, zPos)] *)
Definition addBoard (name : string) (xPos zPos : Z) (st : St) : St :=
  let dummyOp := {| op_no := "00"; op_name := name; machine_type := "Board";
                    smv := 0; section := name |} in
  mkSt (layout st ++
        [{| id := IdBoard name (uuidv4 (drawn st));
            mp_operation := dummyOp;
            position_x := xPos; position_y := 25; position_z := zPos;
            rotation_y := ROT_FACE_FRONT;
            lane := if zPos <? 0 then LA else LC;
            mp_section := name;
            machineIndex := Some (-1);
            isInspection := false; isTrolley := false |}])
       (cursors st) (S (drawn st)).

(** *** Assembly section (lines 128-181) *)

Definition isButtonOp (i : BalancedOp) : bool :=
  includes (toLowerCase (machine_type (operation i))) "button" ||
  includes (toLowerCase (op_name (operation i))) "button".

(** Lines 130-131: [startX = Math.max(A, B, C, D) + SECTION_GAP_X], all four set. *)
Definition assembly_sync (st : St) : Z * St :=
  let c := cursors st in
  let startX := Z.max (Z.max (Z.max (cur_A c) (cur_B c)) (cur_C c)) (cur_D c) + SECTION_GAP_X in
  (startX, with_cursors (mkCursors startX startX startX startX) st).

(** One main operation (lines 150-162): rows of three over lanes A, B, C. *)
Definition assembly_main_op (secName : string) (acc : St * Z) (item : BalancedOp) : St * Z :=
  let '(st, assemblyCursor) := acc in
  let st' :=
    fold_left (fun st k =>
      let laneIdx := Z.of_nat k mod 3 in
      let rowIdx := floor3 k in
      let ln := nth (Z.to_nat laneIdx) [LA; LB; LC] LA in
      let xPos := assemblyCursor + rowIdx * MACHINE_SPACING_X in
      addMachine (operation item) ln xPos k (Some ROT_FACE_FRONT) (Some secName) st)
      (seq 0 (count item)) st in
  let rows := ceil3 (count item) in
  (st', assemblyCursor + rows * MACHINE_SPACING_X).

(** One buttoning operation (lines 167-175): sequentially in lane D. *)
Definition assembly_button_op (secName : string) (acc : St * Z) (item : BalancedOp) : St * Z :=
  fold_left (fun '(st, dCursor) k =>
      (addMachine (operation item) LD dCursor k (Some ROT_FACE_FRONT) (Some secName) st,
       dCursor + MACHINE_SPACING_X))
    (seq 0 (count item)) acc.

(** Lines 178-179: all four cursors set to [Math.max(assemblyCursor, dCursor)]. *)
Definition assembly_resync (assemblyCursor dCursor : Z) (st : St) : St :=
  let endX := Z.max assemblyCursor dCursor in
  with_cursors (mkCursors endX endX endX endX) st.

Definition assembly_section (secName : string) (ops : list BalancedOp) (st : St) : St :=
  let '(startX, st1) := assembly_sync st in
  let st2 := addBoard "Assembly" startX 0 st1 in
  let buttonOps := filter isButtonOp ops in
  let mainOps := filter (fun i => negb (isButtonOp i)) ops in
  let '(st3, assemblyCursor) := fold_left (assembly_main_op secName) mainOps (st2, startX) in
  let '(st4, dCursor) := fold_left (assembly_button_op secName) buttonOps (st3, startX) in
  assembly_resync assemblyCursor dCursor st4.

(** *** Parts-preparation sections (lines 185-290) *)

Definition targetGroup (secLower : string) : Group :=
  if existsb (fun s => includes secLower s) cdSections then CD else AB.

(** Lines 192-202: both lanes of the pair set to [max(pair) + SECTION_GAP_X]. *)
Definition pair_sync (g : Group) (st : St) : Z * St :=
  let c := cursors st in
  let '(l1, l2) := groupLanes g in
  let startX := Z.max (get_cursor c l1) (get_cursor c l2) + SECTION_GAP_X in
  (startX, with_cursors (set_cursor (set_cursor c l1 startX) l2 startX) st).

(** Lines 208-215: both lanes of the pair advanced by [BOARD_GAP]. *)
Definition board_clear (g : Group) (st : St) : St :=
  let c := cursors st in
  let '(l1, l2) := groupLanes g in
  with_cursors (set_cursor (set_cursor c l1 (get_cursor c l1 + BOARD_GAP))
                           l2 (get_cursor c l2 + BOARD_GAP)) st.

Definition toggleLane (g : Group) (t : Lane) : Lane :=
  match g with
  | AB => match t with LA => LB | _ => LA end
  | CD => match t with LC => LD | _ => LC end
  end.

(** The run of one operation (lines 226-232) and the cursor update (235). *)
Definition place_run (secName : string) (currentLane : Lane) (item : BalancedOp) (st : St) : St :=
  let '(st', xPos) :=
    fold_left (fun '(st, xPos) k =>
        (addMachine (operation item) currentLane xPos k None (Some secName) st,
         xPos + MACHINE_SPACING_X))
      (seq 0 (count item)) (st, get_cursor (cursors st) currentLane) in
  with_cursors (set_cursor (cursors st') currentLane xPos) st'.

(** The body of [ops.forEach] (lines 221-243). *)
Definition place_op (g : Group) (secName : string) (acc : Lane * St) (item : BalancedOp) : Lane * St :=
  let '(laneToggle, st) := acc in
  (toggleLane g laneToggle, place_run secName laneToggle item st).

Definition place_ops (g : Group) (secName : string) (ops : list BalancedOp) (st : St) : St :=
  snd (fold_left (place_op g secName) ops (fst (groupLanes g), st)).

(** Lines 248-290: inspection table, trolley, cursors past them. *)
Definition end_fixtures (g : Group) (secName : string) (st : St) : St :=
  let c := cursors st in
  let '(l1, l2) := groupLanes g in
  let endX := Z.max (get_cursor c l1) (get_cursor c l2) in
  let inspectX := endX + SECTION_GAP_X / 2 in
  let innerLane := l1 in
  let innerZ := match g with AB => LANE_Z_A | CD => LANE_Z_C end in
  let st1 := push {| id := IdInspect secName;
                     mp_operation := createDummyOp "Inspection" secName;
                     position_x := inspectX; position_y := 0; position_z := innerZ;
                     rotation_y := ROT_FACE_FRONT; lane := innerLane;
                     mp_section := secName; machineIndex := None;
                     isInspection := true; isTrolley := false |} st in
  let st2 := push {| id := IdTrolley secName;
                     mp_operation := createDummyOp "Trolley" secName;
                     position_x := inspectX + 35; position_y := 0;
                     position_z := innerZ + (match g with AB => -5 | CD => 5 end);
                     rotation_y := ROT_FACE_RIGHT; lane := innerLane;
                     mp_section := secName; machineIndex := None;
                     isInspection := false; isTrolley := true |} st1 in
  let nextStart := inspectX + 25 in
  with_cursors (set_cursor (set_cursor (cursors st2) l1 nextStart) l2 nextStart) st2.

Definition parts_section (secName : string) (ops : list BalancedOp) (st : St) : St :=
  let g := targetGroup (toLowerCase secName) in
  let '(startX, st1) := pair_sync g st in
  let st2 := addBoard secName startX (match g with AB => LANE_Z_A | CD => LANE_Z_C end) st1 in
  let st3 := board_clear g st2 in
  let st4 := place_ops g secName ops st3 in
  end_fixtures g secName st4.

(** The body of [sectionOrder.forEach] (lines 123-291). *)
Definition process_section (st : St) (secName : string) (ops : list BalancedOp) : St :=
  if includes (toLowerCase secName) assemblySection
  then assembly_section secName ops st
  else parts_section secName ops st.

End Generator.

(* ------------------------------------------------------------------ *)
(** ** Grouping by section (lines 47-57) *)

(** [item.operation.section || 'Unknown'] *)
Definition sectionKey (item : BalancedOp) : string :=
  let s := section (operation item) in
  if String.eqb s "" then "Unknown" else s.

(** [sectionsMap], a [Map] kept as an association list in insertion order. *)
Definition SectionsMap := list (string * list BalancedOp).

Definition map_has (k : string) (m : SectionsMap) : bool :=
  existsb (fun p => String.eqb (fst p) k) m.

Definition map_get (k : string) (m : SectionsMap) : list BalancedOp :=
  match find (fun p => String.eqb (fst p) k) m with
  | Some p => snd p
  | None => []
  end.

(** [sectionsMap.get(k)!.push(item)] *)
Definition map_push (k : string) (item : BalancedOp) (m : SectionsMap) : SectionsMap :=
  map (fun p => if String.eqb (fst p) k then (fst p, snd p ++ [item]) else p) m.

Definition group_step (acc : list string * SectionsMap) (item : BalancedOp)
    : list string * SectionsMap :=
  let '(sectionOrder, sectionsMap) := acc in
  let sec := sectionKey item in
  if map_has sec sectionsMap
  then (sectionOrder, map_push sec item sectionsMap)
  else (sectionOrder ++ [sec], map_push sec item (sectionsMap ++ [(sec, [])])).

Definition groupSections (balancedOps : list BalancedOp) : list string * SectionsMap :=
  fold_left group_step balancedOps ([], []).

(* ------------------------------------------------------------------ *)
(** ** [generateLayout] *)

(** The whole call, returning the final local state; a failure of the
    capacity planner propagates out of the call. *)
Definition run_layout (uuidv4 : nat -> string) (rawOperations : list Operation)
    (targetOutput workingHours : Q) : result St :=
  match calculateMachineRequirements rawOperations targetOutput workingHours with
  | Error e => Error e
  | Ok balancedOps =>
      let '(sectionOrder, sectionsMap) := groupSections balancedOps in
      Ok (fold_left (fun st secName =>
                       process_section uuidv4 st secName (map_get secName sectionsMap))
                    sectionOrder init_st)
  end.

Definition generateLayout (uuidv4 : nat -> string) (rawOperations : list Operation)
    (targetOutput workingHours : Q) : result (list MachinePosition) :=
  match run_layout uuidv4 rawOperations targetOutput workingHours with
  | Error e => Error e
  | Ok st => Ok (layout st)
  end.

(* ------------------------------------------------------------------ *)
(** ** General facts *)

Lemma fold_left_inv {A B : Type} (f : A -> B -> A) (I : A -> Prop) (l : list B) (a : A) :
  I a -> (forall a b, In b l -> I a -> I (f a b)) -> I (fold_left f l a).
Proof.
  revert a; induction l as [|b l IH]; intros a Ha Hf; simpl; auto.
  apply IH; [apply Hf; simpl; auto | intros a' b' Hin Ha'; apply Hf; simpl; auto].
Qed.

Lemma Forall_snoc {A : Type} (P : A -> Prop) (l : list A) (x : A) :
  Forall P l -> P x -> Forall P (l ++ [x]).
Proof. intros; apply Forall_app; auto. Qed.

Section Capacity.
Local Open Scope Q_scope.

(** The capacity planner, on a valid demand, keeps the operations in order. *)
Lemma calc_ok ops D W :
  0 < D -> 0 < W ->
  calculateMachineRequirements ops D W =
  Ok (map (fun op => {| operation := op;
            count := Z.to_nat (Z.max 1 (Qceiling (smv op * D / W))) |}) ops).
Proof.
  intros HD HW; unfold calculateMachineRequirements.
  destruct (Qle_bool D 0) eqn:E1.
  - apply Qle_bool_iff in E1. exfalso; apply (Qlt_not_le _ _ HD E1).
  - destruct (Qle_bool W 0) eqn:E2; [|reflexivity].
    apply Qle_bool_iff in E2. exfalso; apply (Qlt_not_le _ _ HW E2).
Qed.

Lemma ceiling_pos q : 0 < q -> (1 <= Qceiling q)%Z.
Proof.
  intros Hq. pose proof (Qle_ceiling q) as H.
  assert (Hlt : 0 < inject_Z (Qceiling q)) by (eapply Qlt_le_trans; eauto).
  change 0 with (inject_Z 0) in Hlt. rewrite <- Zlt_Qlt in Hlt. lia.
Qed.

Lemma ceiling_zero q : q == 0 -> Qceiling q = 0%Z.
Proof.
  intros Hq. apply Z.le_antisymm.
  - change 0%Z with (Qceiling 0). apply Qceiling_resp_le. rewrite Hq. apply Qle_refl.
  - change 0%Z with (Qceiling 0). apply Qceiling_resp_le. rewrite Hq. apply Qle_refl.
Qed.


(* ------------------------------------------------------------------ *)
(** ** Claims about the capacity planner and the failure mode *)

(** C1 (counterexample). The claim asks for [requiredCount = ceil(smv * D / W)]
    for every operation together with [requiredCount >= 1]: an operation
    with [smv = 0] gets one machine, while [ceil(0 * 1 / 1) = 0]. *)
Lemma C1_smv_zero_counterexample :
  exists bal,
    calculateMachineRequirements (mkOperation "1" "Label" "Helper" 0 "Cuff" :: nil) 1 1 = Ok bal /\
    ~ Forall (fun b => Z.of_nat (count b) = Qceiling (smv (operation b) * 1 / 1) /\
                       (1 <= count b)%nat) bal.
Proof.
  eexists; split; [reflexivity|].
  intros H; inversion H as [|b l [Hb _] _]; subst. vm_compute in Hb. discriminate.
Qed.

(** C1 (amended). For [targetOutputPerDay > 0] and [workingMinutesPerDay > 0]
    the capacity planner returns one entry per operation, in input order;
    an operation with [smv > 0] gets [ceil(smv * D / W)] machines, an
    operation with [smv = 0] gets exactly one, and every count is at least one. *)
Theorem C1_required_count (ops : list Operation) (D W : Q) :
  0 < D -> 0 < W ->
  exists bal,
    calculateMachineRequirements ops D W = Ok bal /\
    map operation bal = ops /\
    Forall (fun b =>
      (1 <= count b)%nat /\
      (0 < smv (operation b) -> Z.of_nat (count b) = Qceiling (smv (operation b) * D / W)) /\
      (smv (operation b) == 0 -> count b = 1%nat)) bal.
Proof.
  intros HD HW. eexists; split; [apply calc_ok; auto|]. split.
  - rewrite map_map; simpl. apply map_id.
  - apply Forall_forall. intros b Hb. apply in_map_iff in Hb as [op [<- _]]. simpl.
    split; [|split].
    + lia.
    + intros Hs. assert (Hq : 0 < smv op * D / W).
      { unfold Qdiv. apply Qmult_lt_0_compat; [apply Qmult_lt_0_compat|apply Qinv_lt_0_compat]; auto. }
      pose proof (ceiling_pos _ Hq). lia.
    + intros Hs. rewrite ceiling_zero; [reflexivity|].
      unfold Qdiv. rewrite Hs. rewrite !Qmult_0_l. reflexivity.
Qed.

(** C7. [generateLayout] fails with [InvalidDemand] exactly when
    [targetOutput <= 0] or [workingMinutes <= 0]; a failing call returns no
    entities at all, and it succeeds otherwise. In particular a target of
    zero fails. *)
Theorem C7_invalid_demand (uuidv4 : nat -> string) (ops : list Operation) (D W : Q) :
  (generateLayout uuidv4 ops D W = Error InvalidDemand <-> D <= 0 \/ W <= 0) /\
  ((0 < D /\ 0 < W) <-> exists l, generateLayout uuidv4 ops D W = Ok l) /\
  generateLayout uuidv4 ops 0 W = Error InvalidDemand.
Proof.
  unfold generateLayout, run_layout, calculateMachineRequirements.
  split; [|split].
  - destruct (Qle_bool D 0) eqn:E1; simpl.
    + apply Qle_bool_iff in E1. split; auto.
    + destruct (Qle_bool W 0) eqn:E2; simpl.
      * apply Qle_bool_iff in E2. split; auto.
      * destruct (groupSections _). split; [discriminate|].
        intros [H|H]; [apply Qle_bool_iff in H | apply Qle_bool_iff in H]; congruence.
  - split.
    + intros [HD HW].
      destruct (Qle_bool D 0) eqn:E1.
      { apply Qle_bool_iff in E1. exfalso; apply (Qlt_not_le _ _ HD E1). }
      destruct (Qle_bool W 0) eqn:E2.
      { apply Qle_bool_iff in E2. exfalso; apply (Qlt_not_le _ _ HW E2). }
      simpl. destruct (groupSections _). eauto.
    + intros [l Hl].
      destruct (Qle_bool D 0) eqn:E1; [discriminate|].
      destruct (Qle_bool W 0) eqn:E2; [discriminate|].
      split; apply Qnot_le_lt; intros H; apply Qle_bool_iff in H; congruence.
  - reflexivity.
Qed.

End Capacity.

(* ------------------------------------------------------------------ *)
(** ** Step lemmas: what each helper pushes and how it moves the cursors *)

Section Steps.

Variable uuidv4 : nat -> string.

Lemma addMachine_spec op ln xPos k fr sn st :
  exists e,
    layout (addMachine uuidv4 op ln xPos k fr sn st) = layout st ++ [e] /\
    is_machine e = true /\ is_board e = false /\
    lane e = ln /\ position_x e = xPos /\ machineIndex e = Some (Z.of_nat k) /\
    mp_operation e = op /\ (forall r, fr = Some r -> rotation_y e = r) /\
    cursors (addMachine uuidv4 op ln xPos k fr sn st) = cursors st.
Proof.
  unfold addMachine. destruct ln; eexists; repeat split; intros; subst; reflexivity.
Qed.

Lemma addMachine_cursors op ln xPos k fr sn st :
  cursors (addMachine uuidv4 op ln xPos k fr sn st) = cursors st.
Proof. unfold addMachine; destruct ln; reflexivity. Qed.

Lemma addBoard_spec name x z st :
  exists e,
    layout (addBoard uuidv4 name x z st) = layout st ++ [e] /\
    is_machine e = false /\ is_board e = true /\
    position_x e = x /\ position_z e = z /\ position_y e = 25 /\
    lane e = (if z <? 0 then LA else LC) /\
    machine_type (mp_operation e) = "Board" /\ machineIndex e = Some (-1) /\
    cursors (addBoard uuidv4 name x z st) = cursors st.
Proof. unfold addBoard. eexists; repeat split. Qed.

Lemma assembly_main_op_cursors sec acc item :
  cursors (fst (assembly_main_op uuidv4 sec acc item)) = cursors (fst acc) /\
  snd (assembly_main_op uuidv4 sec acc item) = snd acc + ceil3 (count item) * MACHINE_SPACING_X.
Proof.
  destruct acc as [st ac]. unfold assembly_main_op. simpl. split; [|reflexivity].
  apply (fold_left_inv _ (fun s => cursors s = cursors st)); [reflexivity|].
  intros s k _ Hs. cbv beta zeta. rewrite addMachine_cursors. exact Hs.
Qed.

Lemma assembly_button_op_cursors sec acc item :
  cursors (fst (assembly_button_op uuidv4 sec acc item)) = cursors (fst acc) /\
  snd (assembly_button_op uuidv4 sec acc item) = snd acc + Z.of_nat (count item) * MACHINE_SPACING_X.
Proof.
  destruct acc as [st dc]. unfold assembly_button_op. cbn -[addMachine].
  generalize st dc. induction (count item) as [|n IH]; intros s d.
  - simpl. split; [reflexivity|lia].
  - rewrite seq_S, fold_left_app. cbn -[addMachine].
    destruct (fold_left _ (seq 0 n) (s, d)) as [s' d'] eqn:E. cbn -[addMachine].
    specialize (IH s d). rewrite E in IH. simpl in IH. destruct IH as [IH1 IH2].
    rewrite addMachine_cursors. unfold MACHINE_SPACING_X in *. split; [exact IH1|lia].
Qed.

Lemma ceil3_nonneg n : 0 <= ceil3 n.
Proof. unfold ceil3. apply Z.div_pos; lia. Qed.

Lemma assembly_main_cursors sec ops acc :
  cursors (fst (fold_left (assembly_main_op uuidv4 sec) ops acc)) = cursors (fst acc) /\
  snd acc <= snd (fold_left (assembly_main_op uuidv4 sec) ops acc).
Proof.
  apply (fold_left_inv _ (fun a => cursors (fst a) = cursors (fst acc) /\ snd acc <= snd a)).
  - split; [reflexivity|lia].
  - intros a item _ [H1 H2]. destruct (assembly_main_op_cursors sec a item) as [E1 E2].
    pose proof (ceil3_nonneg (count item)). unfold MACHINE_SPACING_X in *.
    split; [congruence|lia].
Qed.

Lemma assembly_button_cursors sec ops acc :
  cursors (fst (fold_left (assembly_button_op uuidv4 sec) ops acc)) = cursors (fst acc) /\
  snd acc <= snd (fold_left (assembly_button_op uuidv4 sec) ops acc).
Proof.
  apply (fold_left_inv _ (fun a => cursors (fst a) = cursors (fst acc) /\ snd acc <= snd a)).
  - split; [reflexivity|lia].
  - intros a item _ [H1 H2]. destruct (assembly_button_op_cursors sec a item) as [E1 E2].
    unfold MACHINE_SPACING_X in *. split; [congruence|lia].
Qed.

(** The run of one operation in a parts section: its lane's cursor moves by
    [count * MACHINE_SPACING_X], the other cursors stay. *)
Lemma place_run_cursors sec t item st :
  cursors (place_run uuidv4 sec t item st) =
  set_cursor (cursors st) t (get_cursor (cursors st) t + Z.of_nat (count item) * MACHINE_SPACING_X).
Proof.
  unfold place_run.
  assert (H : forall n s x,
    cursors (fst (fold_left (fun '(st, xPos) k =>
        (addMachine uuidv4 (operation item) t xPos k None (Some sec) st, xPos + MACHINE_SPACING_X))
      (seq 0 n) (s, x))) = cursors s /\
    snd (fold_left (fun '(st, xPos) k =>
        (addMachine uuidv4 (operation item) t xPos k None (Some sec) st, xPos + MACHINE_SPACING_X))
      (seq 0 n) (s, x)) = x + Z.of_nat n * MACHINE_SPACING_X).
  { induction n as [|n IH]; intros s x.
    - simpl. split; [reflexivity|lia].
    - rewrite seq_S, fold_left_app. cbn -[addMachine].
      destruct (fold_left _ (seq 0 n) (s, x)) as [s' x'] eqn:E. cbn -[addMachine].
      specialize (IH s x). rewrite E in IH. simpl in IH. destruct IH as [IH1 IH2].
      rewrite addMachine_cursors. unfold MACHINE_SPACING_X in *. split; [exact IH1|lia]. }
  destruct (fold_left _ (seq 0 (count item)) _) as [s' x'] eqn:E.
  destruct (H (count item) st (get_cursor (cursors st) t)) as [H1 H2].
  rewrite E in H1, H2. simpl in H1, H2. simpl. rewrite H1, H2. reflexivity.
Qed.

End Steps.

(** Pointwise order on the four lane cursors. *)
Definition cursors_le (c1 c2 : LaneCursors) : Prop :=
  cur_A c1 <= cur_A c2 /\ cur_B c1 <= cur_B c2 /\ cur_C c1 <= cur_C c2 /\ cur_D c1 <= cur_D c2.

Lemma cursors_le_trans c1 c2 c3 : cursors_le c1 c2 -> cursors_le c2 c3 -> cursors_le c1 c3.
Proof. unfold cursors_le; lia. Qed.

Section Monotone.

Variable uuidv4 : nat -> string.

Lemma pair_sync_mono g st : cursors_le (cursors st) (cursors (snd (pair_sync g st))).
Proof. unfold pair_sync, cursors_le, SECTION_GAP_X; destruct g; simpl; lia. Qed.

Lemma board_clear_mono g st : cursors_le (cursors st) (cursors (board_clear g st)).
Proof. unfold board_clear, cursors_le, BOARD_GAP; destruct g; simpl; lia. Qed.

Lemma place_run_mono sec t item st :
  cursors_le (cursors st) (cursors (place_run uuidv4 sec t item st)).
Proof.
  rewrite place_run_cursors. unfold cursors_le, MACHINE_SPACING_X; destruct t; simpl; lia.
Qed.

Lemma place_ops_mono g sec ops st :
  cursors_le (cursors st) (cursors (place_ops uuidv4 g sec ops st)).
Proof.
  unfold place_ops.
  apply (fold_left_inv _ (fun a => cursors_le (cursors st) (cursors (snd a)))).
  - unfold cursors_le; simpl; lia.
  - intros [t s] item _ H. simpl. eapply cursors_le_trans; [exact H|apply place_run_mono].
Qed.

Lemma end_fixtures_mono g sec st : cursors_le (cursors st) (cursors (end_fixtures g sec st)).
Proof. unfold end_fixtures, cursors_le, SECTION_GAP_X; destruct g; simpl; Z.div_mod_to_equations; lia. Qed.

Lemma assembly_sync_mono st : cursors_le (cursors st) (cursors (snd (assembly_sync st))).
Proof. unfold assembly_sync, cursors_le, SECTION_GAP_X; simpl; lia. Qed.

Lemma assembly_resync_mono sec ops st :
  cursors_le (cursors (snd (assembly_sync st))) (cursors (assembly_section uuidv4 sec ops st)).
Proof.
  unfold assembly_section.
  destruct (assembly_sync st) as [startX st1] eqn:Es. simpl.
  assert (Hc1 : cursors st1 = mkCursors startX startX startX startX).
  { unfold assembly_sync in Es. injection Es as <- <-. reflexivity. }
  set (st2 := addBoard uuidv4 "Assembly" startX 0 st1).
  destruct (fold_left (assembly_main_op uuidv4 sec) _ (st2, startX)) as [st3 ac] eqn:E3.
  destruct (fold_left (assembly_button_op uuidv4 sec) _ (st3, startX)) as [st4 dc] eqn:E4.
  pose proof (assembly_main_cursors uuidv4 sec (filter (fun i => negb (isButtonOp i)) ops) (st2, startX)) as [_ Ha].
  pose proof (assembly_button_cursors uuidv4 sec (filter isButtonOp ops) (st3, startX)) as [_ Hd].
  rewrite E3 in Ha. rewrite E4 in Hd. simpl in Ha, Hd.
  unfold assembly_resync, cursors_le. rewrite Hc1. simpl. lia.
Qed.

Lemma parts_section_mono sec ops st :
  cursors_le (cursors st) (cursors (parts_section uuidv4 sec ops st)).
Proof.
  unfold parts_section.
  destruct (pair_sync _ st) as [startX st1] eqn:E.
  pose proof (pair_sync_mono (targetGroup (toLowerCase sec)) st) as H1. rewrite E in H1. simpl in H1.
  eapply cursors_le_trans; [exact H1|].
  destruct (addBoard_spec uuidv4 sec startX
              (match targetGroup (toLowerCase sec) with AB => LANE_Z_A | CD => LANE_Z_C end) st1)
    as (e & _ & _ & _ & _ & _ & _ & _ & _ & _ & Hc).
  rewrite <- Hc.
  eapply cursors_le_trans; [apply board_clear_mono|].
  eapply cursors_le_trans; [apply place_ops_mono|].
  apply end_fixtures_mono.
Qed.

End Monotone.

(** C9. Each lane cursor is non-decreasing at every update point of the
    section loop: the pair synchronisation at a section start, the board
    clearance, the advance after each operation's run, the post-section
    fixture advance, the four-way synchronisation at the start of an
    assembly section and its final resynchronisation; hence also over every
    whole section. *)
Theorem C9_cursors_monotone (uuidv4 : nat -> string) :
  (forall g st, cursors_le (cursors st) (cursors (snd (pair_sync g st)))) /\
  (forall g st, cursors_le (cursors st) (cursors (board_clear g st))) /\
  (forall sec t item st, cursors_le (cursors st) (cursors (place_run uuidv4 sec t item st))) /\
  (forall g sec st, cursors_le (cursors st) (cursors (end_fixtures g sec st))) /\
  (forall st, cursors_le (cursors st) (cursors (snd (assembly_sync st)))) /\
  (forall sec ops st,
     cursors_le (cursors (snd (assembly_sync st))) (cursors (assembly_section uuidv4 sec ops st))) /\
  (forall st sec ops, cursors_le (cursors st) (cursors (process_section uuidv4 st sec ops))).
Proof.
  split; [apply pair_sync_mono|]. split; [apply board_clear_mono|].
  split; [apply place_run_mono|]. split; [apply end_fixtures_mono|].
  split; [apply assembly_sync_mono|]. split; [apply assembly_resync_mono|].
  intros st sec ops. unfold process_section.
  destruct (includes _ _).
  - eapply cursors_le_trans; [apply assembly_sync_mono|apply assembly_resync_mono].
  - apply parts_section_mono.
Qed.

(* ------------------------------------------------------------------ *)
(** ** Properties of every pushed entity *)

Section Preserve.

Variable uuidv4 : nat -> string.
Variable P : MachinePosition -> Prop.

Hypothesis P_addMachine : forall op ln x k fr sn st,
  Forall P (layout st) -> Forall P (layout (addMachine uuidv4 op ln x k fr sn st)).
Hypothesis P_addBoard : forall name x z st,
  Forall P (layout st) -> Forall P (layout (addBoard uuidv4 name x z st)).
Hypothesis P_fixture : forall e,
  match id e with IdInspect _ | IdTrolley _ => True | _ => False end -> P e.

Lemma assembly_section_preserves sec ops st :
  Forall P (layout st) -> Forall P (layout (assembly_section uuidv4 sec ops st)).
Proof.
  intros H. unfold assembly_section.
  destruct (assembly_sync st) as [startX st1] eqn:Es.
  assert (H1 : Forall P (layout st1)) by (unfold assembly_sync in Es; injection Es as _ <-; exact H).
  pose proof (P_addBoard "Assembly" startX 0 st1 H1) as H2.
  destruct (fold_left (assembly_main_op uuidv4 sec) _ _) as [st3 ac] eqn:E3.
  assert (H3 : Forall P (layout st3)).
  { change st3 with (fst (st3, ac)). rewrite <- E3.
    apply (fold_left_inv _ (fun a => Forall P (layout (fst a)))); [exact H2|].
    intros [s a] item _ Hs. unfold assembly_main_op. simpl.
    apply (fold_left_inv _ (fun s => Forall P (layout s))); [exact Hs|].
    intros s' k _ Hs'. cbv beta zeta. apply P_addMachine; exact Hs'. }
  destruct (fold_left (assembly_button_op uuidv4 sec) _ _) as [st4 dc] eqn:E4.
  assert (H4 : Forall P (layout st4)).
  { change st4 with (fst (st4, dc)). rewrite <- E4.
    apply (fold_left_inv _ (fun a => Forall P (layout (fst a)))); [exact H3|].
    intros a item _ Ha. unfold assembly_button_op.
    apply (fold_left_inv _ (fun a => Forall P (layout (fst a)))); [exact Ha|].
    intros [s' d'] k _ Hs'. cbn -[addMachine]. apply P_addMachine; exact Hs'. }
  exact H4.
Qed.

Lemma place_ops_preserves g sec ops st :
  Forall P (layout st) -> Forall P (layout (place_ops uuidv4 g sec ops st)).
Proof.
  intros H. unfold place_ops.
  apply (fold_left_inv _ (fun a => Forall P (layout (snd a)))); [exact H|].
  intros [t s] item _ Hs. simpl. unfold place_run.
  destruct (fold_left _ _ _) as [s' x'] eqn:E. simpl.
  change s' with (fst (s', x')). rewrite <- E.
  apply (fold_left_inv _ (fun a => Forall P (layout (fst a)))); [exact Hs|].
  intros [s1 x1] k _ H1. cbn -[addMachine]. apply P_addMachine; exact H1.
Qed.

Lemma parts_section_preserves sec ops st :
  Forall P (layout st) -> Forall P (layout (parts_section uuidv4 sec ops st)).
Proof.
  intros H. unfold parts_section.
  destruct (pair_sync _ st) as [startX st1] eqn:Es.
  assert (H1 : Forall P (layout st1)).
  { unfold pair_sync in Es. destruct (groupLanes _). injection Es as _ <-. exact H. }
  apply P_addBoard with (name := sec) (x := startX)
    (z := match targetGroup (toLowerCase sec) with AB => LANE_Z_A | CD => LANE_Z_C end) in H1.
  assert (H3 : forall g s, Forall P (layout s) -> Forall P (layout (board_clear g s))).
  { intros g s Hs. unfold board_clear. destruct (groupLanes g). exact Hs. }
  apply (H3 (targetGroup (toLowerCase sec))) in H1.
  apply (place_ops_preserves (targetGroup (toLowerCase sec)) sec ops) in H1.
  unfold end_fixtures. destruct (groupLanes _) as [l1 l2] eqn:Eg. simpl.
  apply Forall_snoc; [apply Forall_snoc; [exact H1|]|]; apply P_fixture; exact I.
Qed.

Lemma process_section_preserves st sec ops :
  Forall P (layout st) -> Forall P (layout (process_section uuidv4 st sec ops)).
Proof.
  unfold process_section. destruct (includes _ _).
  - apply assembly_section_preserves.
  - apply parts_section_preserves.
Qed.

Lemma run_layout_preserves ops D W st :
  run_layout uuidv4 ops D W = Ok st -> Forall P (layout st).
Proof.
  unfold run_layout. destruct (calculateMachineRequirements _ _ _); [|discriminate].
  destruct (groupSections a) as [order m]. intros Hst. injection Hst as <-.
  apply (fold_left_inv _ (fun s => Forall P (layout s))); [constructor|].
  intros s sec _ Hs. apply process_section_preserves; exact Hs.
Qed.

End Preserve.

Lemma generateLayout_run uuidv4 ops D W l :
  generateLayout uuidv4 ops D W = Ok l -> exists st, run_layout uuidv4 ops D W = Ok st /\ l = layout st.
Proof.
  unfold generateLayout. destruct (run_layout _ _ _ _) as [st|e]; [|discriminate].
  intros H; injection H as <-. eauto.
Qed.

Definition board_ok (e : MachinePosition) : Prop :=
  is_board e = true ->
  lane e = (if position_z e <? 0 then LA else LC) /\ position_y e = 25 /\
  machine_type (mp_operation e) = "Board" /\ machineIndex e = Some (-1).

(** C10. Every section board emitted by [generateLayout] is in lane A when
    its [z] is negative and in lane C otherwise (so the assembly board, at
    [z = 0], is in lane C), sits at [y = 2.5] m, has machine type ["Board"]
    and sequence index [-1]. *)
Theorem C10_boards (uuidv4 : nat -> string) ops D W l e :
  generateLayout uuidv4 ops D W = Ok l -> In e l -> is_board e = true ->
  lane e = (if position_z e <? 0 then LA else LC) /\ position_y e = 25 /\
  machine_type (mp_operation e) = "Board" /\ machineIndex e = Some (-1).
Proof.
  intros Hg Hin Hb. apply generateLayout_run in Hg as [st [Hr ->]].
  assert (HF : Forall board_ok (layout st)).
  { apply (run_layout_preserves uuidv4 board_ok) with (ops := ops) (D := D) (W := W); [| | |exact Hr].
    - intros op ln x k fr sn s Hs.
      destruct (addMachine_spec uuidv4 op ln x k fr sn s) as (e' & -> & _ & Hb' & _).
      apply Forall_snoc; [exact Hs|]. unfold board_ok; congruence.
    - intros name x z s Hs.
      destruct (addBoard_spec uuidv4 name x z s) as (e' & -> & _ & _ & _ & Hz & Hy & Hl & Ht & Hi & _).
      apply Forall_snoc; [exact Hs|]. intros _. rewrite Hz. auto.
    - intros e' He' Hb'. unfold is_board in Hb'. destruct (id e'); try contradiction; discriminate. }
  rewrite Forall_forall in HF. apply HF; assumption.
Qed.

(* ------------------------------------------------------------------ *)
(** ** Concrete runs *)

Definition press_op : Operation := mkOperation "1" "Press collar" "Press" 1 "Cuff".
Definition snls_op : Operation := mkOperation "1" "Attach cuff" "SNLS" 1 "Cuff".

(** C5 (failing input). A pressing machine ([machine_type = "Press"]) in a
    cuff section lands in lane A and keeps lane A's yaw [ROT_FACE_LEFT]: the
    override in [addMachine] tests only for "iron" and "inspection". *)
Theorem C5_press_keeps_lane_yaw (uuidv4 : nat -> string) :
  exists l,
    generateLayout uuidv4 [press_op] 1 1 = Ok l /\
    map (fun e => (lane e, rotation_y e, machine_type (mp_operation e))) (machines l) =
    [(LA, ROT_FACE_LEFT, "Press")].
Proof. eexists; split; [reflexivity|]. vm_compute. reflexivity. Qed.

(** C6 (failing input). One cuff operation with one machine: the section
    ends with the inspection table at 6.5 m and the trolley at 10 m, both
    in lane A, but lanes A and B are left at 9 m, short of the trolley. *)
Theorem C6_cursor_short_of_trolley (uuidv4 : nat -> string) :
  exists st,
    run_layout uuidv4 [snls_op] 1 1 = Ok st /\
    map (fun e => (id e, lane e, position_x e)) (layout st) =
      [(IdBoard "Cuff" (uuidv4 0%nat), LA, 20);
       (IdMachine "1" 0%nat (uuidv4 1%nat), LA, 35);
       (IdInspect "Cuff", LA, 65);
       (IdTrolley "Cuff", LA, 100)] /\
    cur_A (cursors st) = 90 /\ cur_B (cursors st) = 90 /\
    cur_A (cursors st) < 100.
Proof. eexists; split; [reflexivity|]. vm_compute. repeat split; reflexivity. Qed.

(* ------------------------------------------------------------------ *)
(** ** Machine placement in parts-preparation sections *)

(** What a claim about placement looks at: operation, lane, along-line
    offset and sequence index of a machine. *)
Definition mview (e : MachinePosition) : Operation * Lane * Z * option Z :=
  (mp_operation e, lane e, position_x e, machineIndex e).

(** Per-operation alternation as the spec words it: the current lane takes
    the operation's whole run at consecutive offsets from its cursor, with
    sequence indices 0 .. count-1; then the other lane of the pair takes the
    next operation, and the current lane's cursor has moved by
    [count * MACHINE_SPACING_X]. *)
Fixpoint alternating_runs (l1 : Lane) (c1 : Z) (l2 : Lane) (c2 : Z)
    (ops : list BalancedOp) : list (Operation * Lane * Z * option Z) :=
  match ops with
  | [] => []
  | item :: rest =>
      map (fun k => (operation item, l1, c1 + Z.of_nat k * MACHINE_SPACING_X, Some (Z.of_nat k)))
          (seq 0 (count item)) ++
      alternating_runs l2 c2 l1 (c1 + Z.of_nat (count item) * MACHINE_SPACING_X) rest
  end.

Lemma machines_snoc l e :
  machines (l ++ [e]) = if is_machine e then machines l ++ [e] else machines l.
Proof. unfold machines. rewrite filter_app. simpl. destruct (is_machine e); auto using app_nil_r. Qed.

Definition in_group (g : Group) (t : Lane) : Prop :=
  match g, t with AB, (LA | LB) => True | CD, (LC | LD) => True | _, _ => False end.

Section PartsPlacement.

Variable uuidv4 : nat -> string.

Lemma place_run_machines sec t item st :
  map mview (machines (layout (place_run uuidv4 sec t item st))) =
  map mview (machines (layout st)) ++
  map (fun k => (operation item, t, get_cursor (cursors st) t + Z.of_nat k * MACHINE_SPACING_X,
                 Some (Z.of_nat k))) (seq 0 (count item)).
Proof.
  unfold place_run.
  assert (H : forall n s x,
    map mview (machines (layout (fst (fold_left (fun '(st, xPos) k =>
        (addMachine uuidv4 (operation item) t xPos k None (Some sec) st, xPos + MACHINE_SPACING_X))
      (seq 0 n) (s, x))))) =
    map mview (machines (layout s)) ++
    map (fun k => (operation item, t, x + Z.of_nat k * MACHINE_SPACING_X, Some (Z.of_nat k))) (seq 0 n) /\
    snd (fold_left (fun '(st, xPos) k =>
        (addMachine uuidv4 (operation item) t xPos k None (Some sec) st, xPos + MACHINE_SPACING_X))
      (seq 0 n) (s, x)) = x + Z.of_nat n * MACHINE_SPACING_X).
  { induction n as [|n IH]; intros s x.
    - simpl. rewrite app_nil_r. split; [reflexivity|lia].
    - rewrite seq_S, fold_left_app. cbn -[addMachine].
      destruct (fold_left _ (seq 0 n) (s, x)) as [s' x'] eqn:E. cbn -[addMachine].
      specialize (IH s x). rewrite E in IH. simpl in IH. destruct IH as [IH1 IH2].
      destruct (addMachine_spec uuidv4 (operation item) t x' n None (Some sec) s')
        as (e & He & Hm & _ & Hl & Hx & Hi & Ho & _).
      rewrite He, machines_snoc, Hm, !map_app, IH1, <- app_assoc.
      unfold MACHINE_SPACING_X in *. split; [|lia].
      simpl. unfold mview. rewrite Ho, Hl, Hx, Hi, IH2. reflexivity. }
  destruct (fold_left _ (seq 0 (count item)) _) as [s' x'] eqn:E.
  destruct (H (count item) st (get_cursor (cursors st) t)) as [H1 _].
  rewrite E in H1. simpl in H1. simpl. exact H1.
Qed.

Lemma get_set_same c t v : get_cursor (set_cursor c t v) t = v.
Proof. destruct t; reflexivity. Qed.

Lemma get_set_other c t t' v : t <> t' -> get_cursor (set_cursor c t v) t' = get_cursor c t'.
Proof. destruct t, t'; simpl; congruence. Qed.

Lemma toggle_in_group g t : in_group g t ->
  in_group g (toggleLane g t) /\ toggleLane g (toggleLane g t) = t /\ toggleLane g t <> t.
Proof. destruct g, t; simpl; intuition discriminate. Qed.

Lemma place_ops_from_machines g sec ops t st :
  in_group g t ->
  map mview (machines (layout (snd (fold_left (place_op uuidv4 g sec) ops (t, st))))) =
  map mview (machines (layout st)) ++
  alternating_runs t (get_cursor (cursors st) t)
                   (toggleLane g t) (get_cursor (cursors st) (toggleLane g t)) ops.
Proof.
  revert t st. induction ops as [|item rest IH]; intros t st Ht.
  - simpl. rewrite app_nil_r. reflexivity.
  - simpl. destruct (toggle_in_group g t Ht) as (Ht' & Htt & Hne).
    rewrite (IH (toggleLane g t) _ Ht'), place_run_machines, <- app_assoc.
    rewrite Htt, place_run_cursors, get_set_same, get_set_other by congruence.
    reflexivity.
Qed.

End PartsPlacement.

Lemma parts_section_machines uuidv4 sec ops st :
  let g := targetGroup (toLowerCase sec) in
  let s := Z.max (get_cursor (cursors st) (fst (groupLanes g)))
                 (get_cursor (cursors st) (snd (groupLanes g))) + SECTION_GAP_X + BOARD_GAP in
  map mview (machines (layout (parts_section uuidv4 sec ops st))) =
  map mview (machines (layout st)) ++
  alternating_runs (fst (groupLanes g)) s (snd (groupLanes g)) s ops.
Proof.
  intros g s. unfold parts_section. fold g.
  set (z := match g with AB => LANE_Z_A | CD => LANE_Z_C end).
  destruct (pair_sync g st) as [startX st1] eqn:Es.
  assert (Hst1 : layout st1 = layout st /\ startX + BOARD_GAP = s /\
                 forall t, in_group g t -> get_cursor (cursors st1) t = startX).
  { unfold pair_sync in Es. subst s.
    destruct g; simpl in Es; injection Es as <- <-; simpl; repeat split;
      intros [] Ht; simpl in Ht; try contradiction; reflexivity. }
  destruct Hst1 as (Hl1 & Hs & Hc1).
  destruct (addBoard_spec uuidv4 sec startX z st1) as (b & Hb & Hbm & _ & _ & _ & _ & _ & _ & _ & Hbc).
  set (st2 := addBoard uuidv4 sec startX z st1) in *.
  set (st3 := board_clear g st2).
  assert (Hst3 : machines (layout st3) = machines (layout st) /\
                 forall t, in_group g t -> get_cursor (cursors st3) t = s).
  { unfold st3, board_clear. split.
    - destruct (groupLanes g); unfold with_cursors; cbn [layout].
      rewrite Hb, machines_snoc, Hbm, Hl1. reflexivity.
    - intros t Ht. rewrite <- Hs, <- (Hc1 t Ht).
      destruct g, t; simpl in Ht; try contradiction; unfold with_cursors; cbn [cursors];
        rewrite Hbc; reflexivity. }
  destruct Hst3 as [Hm3 Hc3].
  assert (Hg1 : in_group g (fst (groupLanes g))) by (destruct g; exact I).
  assert (Hg2 : toggleLane g (fst (groupLanes g)) = snd (groupLanes g)) by (destruct g; reflexivity).
  pose proof (place_ops_from_machines uuidv4 g sec ops (fst (groupLanes g)) st3 Hg1) as Hp.
  rewrite Hg2, Hc3, Hc3, Hm3 in Hp by (destruct g; exact I).
  unfold place_ops. unfold end_fixtures.
  destruct (groupLanes g) as [l1 l2] eqn:Eg. simpl in Hp |- *.
  rewrite machines_snoc, machines_snoc. simpl. exact Hp.
Qed.

(** C3. In a section whose lower-cased label does not contain "assembly",
    the machines [generateLayout] adds are exactly [alternating_runs] from
    the synchronised start (after the board clearance) of the section's lane
    pair: operation 1's run in the pair's first lane (A for AB, C for CD),
    operation 2's in the second, operation 3's back in the first, and so on,
    each run at consecutive offsets spaced by the machine pitch with
    sequence indices 0 .. count-1. Each operation's run moves its own lane's
    cursor by [count * MACHINE_SPACING_X] and leaves the other cursors as
    they were. *)
Theorem C3_alternating_runs (uuidv4 : nat -> string) (sec : string) (ops : list BalancedOp) (st : St) :
  includes (toLowerCase sec) assemblySection = false ->
  let g := targetGroup (toLowerCase sec) in
  let s := Z.max (get_cursor (cursors st) (fst (groupLanes g)))
                 (get_cursor (cursors st) (snd (groupLanes g))) + SECTION_GAP_X + BOARD_GAP in
  map mview (machines (layout (process_section uuidv4 st sec ops))) =
    map mview (machines (layout st)) ++
    alternating_runs (fst (groupLanes g)) s (snd (groupLanes g)) s ops /\
  (forall t item st',
     cursors (place_run uuidv4 sec t item st') =
     set_cursor (cursors st') t
       (get_cursor (cursors st') t + Z.of_nat (count item) * MACHINE_SPACING_X)).
Proof.
  intros Hna g s. split.
  - unfold process_section. rewrite Hna. apply parts_section_machines.
  - intros; apply place_run_cursors.
Qed.

(* ------------------------------------------------------------------ *)
(** ** Machine placement in the assembly section *)

Definition aview (e : MachinePosition) : Operation * Lane * Z * option Z * Yaw :=
  (mp_operation e, lane e, position_x e, machineIndex e, rotation_y e).

(** Lane [i] of [A, B, C]. *)
Definition abc_lane (i : nat) : Lane := nth i [LA; LB; LC] LA.

(** Main operations as the spec words them: instance [k] of an operation in
    lane [k mod 3] of [A, B, C], [k / 3] rows along the line from the
    operation's first row, facing front; the next operation starts after
    the [ceil(count / 3)] rows of this one. *)
Fixpoint round_robin_runs (base : Z) (ops : list BalancedOp)
    : list (Operation * Lane * Z * option Z * Yaw) :=
  match ops with
  | [] => []
  | item :: rest =>
      map (fun k => (operation item, abc_lane (k mod 3),
                     base + Z.of_nat (k / 3) * MACHINE_SPACING_X, Some (Z.of_nat k), ROT_FACE_FRONT))
          (seq 0 (count item)) ++
      round_robin_runs (base + ceil3 (count item) * MACHINE_SPACING_X) rest
  end.

(** Buttoning operations: one after another in lane D, facing front. *)
Fixpoint sequential_runs (x : Z) (ops : list BalancedOp)
    : list (Operation * Lane * Z * option Z * Yaw) :=
  match ops with
  | [] => []
  | item :: rest =>
      map (fun k => (operation item, LD, x + Z.of_nat k * MACHINE_SPACING_X, Some (Z.of_nat k),
                     ROT_FACE_FRONT))
          (seq 0 (count item)) ++
      sequential_runs (x + Z.of_nat (count item) * MACHINE_SPACING_X) rest
  end.

Section AssemblyPlacement.

Variable uuidv4 : nat -> string.

Lemma addMachine_aview op ln x k r sn st :
  map aview (machines (layout (addMachine uuidv4 op ln x k (Some r) sn st))) =
  map aview (machines (layout st)) ++ [(op, ln, x, Some (Z.of_nat k), r)].
Proof.
  destruct (addMachine_spec uuidv4 op ln x k (Some r) sn st)
    as (e & He & Hm & _ & Hl & Hx & Hi & Ho & Hr & _).
  rewrite He, machines_snoc, Hm, map_app. simpl. unfold aview.
  rewrite Ho, Hl, Hx, Hi, (Hr r eq_refl). reflexivity.
Qed.

Lemma assembly_main_op_machines sec s ac item :
  map aview (machines (layout (fst (assembly_main_op uuidv4 sec (s, ac) item)))) =
  map aview (machines (layout s)) ++
  map (fun k => (operation item, abc_lane (k mod 3),
                 ac + Z.of_nat (k / 3) * MACHINE_SPACING_X, Some (Z.of_nat k), ROT_FACE_FRONT))
      (seq 0 (count item)).
Proof.
  unfold assembly_main_op. cbn [fst].
  induction (count item) as [|n IH].
  - simpl. rewrite app_nil_r. reflexivity.
  - rewrite seq_S, fold_left_app. cbn [fold_left Nat.add].
    rewrite addMachine_aview, IH, map_app, <- app_assoc. cbn [map].
    unfold abc_lane, floor3.
    replace (Z.of_nat n mod 3) with (Z.of_nat (n mod 3)) by (rewrite Nat2Z.inj_mod; reflexivity).
    replace (Z.of_nat n / 3) with (Z.of_nat (n / 3)) by (rewrite Nat2Z.inj_div; reflexivity).
    rewrite Nat2Z.id. reflexivity.
Qed.

Lemma assembly_button_op_machines sec s d item :
  map aview (machines (layout (fst (assembly_button_op uuidv4 sec (s, d) item)))) =
  map aview (machines (layout s)) ++
  map (fun k => (operation item, LD, d + Z.of_nat k * MACHINE_SPACING_X, Some (Z.of_nat k),
                 ROT_FACE_FRONT)) (seq 0 (count item)).
Proof.
  unfold assembly_button_op.
  assert (H : forall n,
    map aview (machines (layout (fst (fold_left (fun '(st, dCursor) k =>
        (addMachine uuidv4 (operation item) LD dCursor k (Some ROT_FACE_FRONT) (Some sec) st,
         dCursor + MACHINE_SPACING_X)) (seq 0 n) (s, d))))) =
    map aview (machines (layout s)) ++
    map (fun k => (operation item, LD, d + Z.of_nat k * MACHINE_SPACING_X, Some (Z.of_nat k),
                   ROT_FACE_FRONT)) (seq 0 n) /\
    snd (fold_left (fun '(st, dCursor) k =>
        (addMachine uuidv4 (operation item) LD dCursor k (Some ROT_FACE_FRONT) (Some sec) st,
         dCursor + MACHINE_SPACING_X)) (seq 0 n) (s, d)) = d + Z.of_nat n * MACHINE_SPACING_X).
  { induction n as [|n IH].
    - simpl. rewrite app_nil_r. split; [reflexivity|lia].
    - rewrite seq_S, fold_left_app. cbn -[addMachine].
      destruct (fold_left _ (seq 0 n) (s, d)) as [s' d'] eqn:E. cbn -[addMachine].
      try rewrite E in IH. destruct IH as [IH1 IH2]. cbn [fst snd] in IH1, IH2.
      rewrite addMachine_aview, IH1, map_app, <- app_assoc, IH2.
      unfold MACHINE_SPACING_X. split; [reflexivity|lia]. }
  apply H.
Qed.

Lemma assembly_main_machines sec ops s ac :
  map aview (machines (layout (fst (fold_left (assembly_main_op uuidv4 sec) ops (s, ac))))) =
  map aview (machines (layout s)) ++ round_robin_runs ac ops.
Proof.
  revert s ac. induction ops as [|item rest IH]; intros s ac.
  - simpl. rewrite app_nil_r. reflexivity.
  - cbn [fold_left round_robin_runs]. destruct (assembly_main_op uuidv4 sec (s, ac) item) as [s' ac'] eqn:E.
    pose proof (assembly_main_op_machines sec s ac item) as H1.
    pose proof (assembly_main_op_cursors uuidv4 sec (s, ac) item) as [_ H2].
    rewrite E in H1, H2. cbn [fst snd] in H1, H2.
    rewrite IH, H1, H2, <- app_assoc. reflexivity.
Qed.

Lemma assembly_button_machines sec ops s d :
  map aview (machines (layout (fst (fold_left (assembly_button_op uuidv4 sec) ops (s, d))))) =
  map aview (machines (layout s)) ++ sequential_runs d ops.
Proof.
  revert s d. induction ops as [|item rest IH]; intros s d.
  - simpl. rewrite app_nil_r. reflexivity.
  - cbn [fold_left sequential_runs]. destruct (assembly_button_op uuidv4 sec (s, d) item) as [s' d'] eqn:E.
    pose proof (assembly_button_op_machines sec s d item) as H1.
    pose proof (assembly_button_op_cursors uuidv4 sec (s, d) item) as [_ H2].
    rewrite E in H1, H2. cbn [fst snd] in H1, H2.
    rewrite IH, H1, H2, <- app_assoc. reflexivity.
Qed.

Lemma assembly_section_machines sec ops st :
  let c := cursors st in
  let startX := Z.max (Z.max (Z.max (cur_A c) (cur_B c)) (cur_C c)) (cur_D c) + SECTION_GAP_X in
  map aview (machines (layout (assembly_section uuidv4 sec ops st))) =
  map aview (machines (layout st)) ++
  round_robin_runs startX (filter (fun i => negb (isButtonOp i)) ops) ++
  sequential_runs startX (filter isButtonOp ops).
Proof.
  intros c startX. unfold assembly_section, assembly_sync. fold c. fold startX.
  destruct (addBoard_spec uuidv4 "Assembly" startX 0
              (with_cursors (mkCursors startX startX startX startX) st))
    as (b & Hb & Hbm & _).
  destruct (fold_left (assembly_main_op uuidv4 sec) _ _) as [st3 ac] eqn:E3.
  destruct (fold_left (assembly_button_op uuidv4 sec) _ _) as [st4 dc] eqn:E4.
  pose proof (assembly_button_machines sec (filter isButtonOp ops) st3 startX) as H4.
  rewrite E4 in H4. cbn [fst] in H4.
  pose proof (assembly_main_machines sec (filter (fun i => negb (isButtonOp i)) ops)
                (addBoard uuidv4 "Assembly" startX 0 (with_cursors (mkCursors startX startX startX startX) st))
                startX) as H3.
  rewrite E3 in H3. cbn [fst] in H3.
  unfold assembly_resync, with_cursors at 1. cbn [layout].
  rewrite H4, H3, Hb, machines_snoc, Hbm, <- app_assoc. reflexivity.
Qed.

End AssemblyPlacement.

Definition assembly_ops : list Operation :=
  [mkOperation "1" "Join shoulder" "SNLS" 3 "Assembly";
   mkOperation "2" "Attach sleeve" "Overlock" 3 "Assembly";
   mkOperation "3" "Side seam" "Overlock" 3 "Assembly"].

(** C4. In a section whose lower-cased label contains "assembly", the
    machines [generateLayout] adds are: for each non-buttoning operation in
    turn, instance [k] in lane [k mod 3] of [A, B, C] at [k / 3] rows from the
    operation's first row, facing front; then every buttoning operation's
    instances one after another in lane D from the section start, facing
    front. With three operations of three machines each (smv 3, one unit
    per minute), the nine machines are three per lane in A, B, C, and each
    operation's three machines share one row. *)
Theorem C4_assembly_placement (uuidv4 : nat -> string) (sec : string) (ops : list BalancedOp) (st : St) :
  includes (toLowerCase sec) assemblySection = true ->
  (let c := cursors st in
   let startX := Z.max (Z.max (Z.max (cur_A c) (cur_B c)) (cur_C c)) (cur_D c) + SECTION_GAP_X in
   map aview (machines (layout (process_section uuidv4 st sec ops))) =
   map aview (machines (layout st)) ++
   round_robin_runs startX (filter (fun i => negb (isButtonOp i)) ops) ++
   sequential_runs startX (filter isButtonOp ops)) /\
  (exists l,
     generateLayout uuidv4 assembly_ops 1 1 = Ok l /\
     map (fun e => (op_no (mp_operation e), lane e, position_x e, rotation_y e)) (machines l) =
     [("1", LA, 20, ROT_FACE_FRONT); ("1", LB, 20, ROT_FACE_FRONT); ("1", LC, 20, ROT_FACE_FRONT);
      ("2", LA, 40, ROT_FACE_FRONT); ("2", LB, 40, ROT_FACE_FRONT); ("2", LC, 40, ROT_FACE_FRONT);
      ("3", LA, 60, ROT_FACE_FRONT); ("3", LB, 60, ROT_FACE_FRONT); ("3", LC, 60, ROT_FACE_FRONT)]).
Proof.
  intros Ha. split.
  - unfold process_section. rewrite Ha. apply assembly_section_machines.
  - eexists; split; [reflexivity|]. vm_compute. reflexivity.
Qed.

(* ------------------------------------------------------------------ *)
(** ** Machine positions stay distinct *)

Definition pview (e : MachinePosition) : Lane * Z := (lane e, position_x e).

(** Positions taken so far have no duplicate and lie strictly before the
    bound of their lane. *)
Definition PosInv (b : Lane -> Z) (P : list (Lane * Z)) : Prop :=
  NoDup P /\ Forall (fun p => snd p < b (fst p)) P.

Lemma PosInv_mono b b' P : PosInv b P -> (forall l, b l <= b' l) -> PosInv b' P.
Proof.
  intros [Hn Hf] Hb. split; [exact Hn|].
  eapply Forall_impl; [|exact Hf]. intros [l x] H; simpl in *. specialize (Hb l); lia.
Qed.

Lemma PosInv_block b b' P B :
  PosInv b P -> NoDup B ->
  Forall (fun p => b (fst p) <= snd p /\ snd p < b' (fst p)) B ->
  (forall l, b l <= b' l) -> PosInv b' (P ++ B).
Proof.
  intros [Hn Hf] HnB HfB Hb. split.
  - apply NoDup_app; auto. intros p Hp HpB.
    rewrite Forall_forall in Hf, HfB. specialize (Hf p Hp). specialize (HfB p HpB). lia.
  - apply Forall_app; split.
    + eapply PosInv_mono; [split; eauto|exact Hb].
    + eapply Forall_impl; [|exact HfB]. intros p [_ H]; exact H.
Qed.

Lemma cursors_le_get c1 c2 : cursors_le c1 c2 -> forall l, get_cursor c1 l <= get_cursor c2 l.
Proof. unfold cursors_le; intros H l; destruct l; simpl; lia. Qed.

Lemma map_inj_nodup {A B : Type} (f : A -> B) (l : list A) :
  NoDup l -> (forall x y, In x l -> In y l -> f x = f y -> x = y) -> NoDup (map f l).
Proof. intros Hn Hi. apply NoDup_map_NoDup_ForallPairs; [|exact Hn]. intros x y Hx Hy; auto. Qed.

Lemma run_block_nodup (t : Lane) (c : Z) (n : nat) :
  NoDup (map (fun k => (t, c + Z.of_nat k * MACHINE_SPACING_X)) (seq 0 n)).
Proof.
  apply map_inj_nodup; [apply seq_NoDup|]. intros x y _ _ H.
  injection H. unfold MACHINE_SPACING_X. lia.
Qed.

Definition mproj (v : Operation * Lane * Z * option Z) : Lane * Z := (snd (fst (fst v)), snd (fst v)).

Lemma pview_mview M : map pview M = map mproj (map mview M).
Proof. rewrite map_map. reflexivity. Qed.

Section Distinct.

Variable uuidv4 : nat -> string.

Definition SI (st : St) : Prop :=
  PosInv (get_cursor (cursors st)) (map pview (machines (layout st))).

Lemma SI_cursors_up st st' :
  SI st -> machines (layout st') = machines (layout st) ->
  cursors_le (cursors st) (cursors st') -> SI st'.
Proof.
  unfold SI. intros H Hm Hc. rewrite Hm. eapply PosInv_mono; [exact H|].
  apply cursors_le_get; exact Hc.
Qed.

Lemma place_run_SI sec t item st : SI st -> SI (place_run uuidv4 sec t item st).
Proof.
  unfold SI. intros H.
  rewrite pview_mview, place_run_machines, map_app, <- pview_mview, map_map.
  unfold mproj; cbn [fst snd].
  rewrite place_run_cursors. apply PosInv_block with (b := get_cursor (cursors st)).
  - exact H.
  - apply run_block_nodup.
  - apply Forall_forall. intros p Hp. apply in_map_iff in Hp as [k [<- Hk]].
    apply in_seq in Hk. cbn [fst snd]. rewrite get_set_same. unfold MACHINE_SPACING_X. lia.
  - intros l. destruct (Lane_eq_dec t l) as [<-|Hne].
    + rewrite get_set_same. unfold MACHINE_SPACING_X. lia.
    + rewrite get_set_other by exact Hne. lia.
Qed.

Lemma end_fixtures_machines g sec st :
  machines (layout (end_fixtures g sec st)) = machines (layout st).
Proof.
  unfold end_fixtures, push, with_cursors. destruct (groupLanes g). cbn [layout].
  rewrite !machines_snoc. reflexivity.
Qed.

Lemma addBoard_machines name x z st :
  machines (layout (addBoard uuidv4 name x z st)) = machines (layout st).
Proof.
  destruct (addBoard_spec uuidv4 name x z st) as (b & Hb & Hbm & _).
  rewrite Hb, machines_snoc, Hbm. reflexivity.
Qed.

Lemma addBoard_cursors name x z st : cursors (addBoard uuidv4 name x z st) = cursors st.
Proof. reflexivity. Qed.

Lemma parts_section_SI sec ops st : SI st -> SI (parts_section uuidv4 sec ops st).
Proof.
  intros H. unfold parts_section.
  set (g := targetGroup (toLowerCase sec)).
  destruct (pair_sync g st) as [startX st1] eqn:Es.
  assert (H1 : SI st1).
  { apply (SI_cursors_up st); [exact H| |].
    - unfold pair_sync in Es. destruct (groupLanes g). injection Es as _ <-. reflexivity.
    - pose proof (pair_sync_mono g st) as Hm. rewrite Es in Hm. exact Hm. }
  set (z := match g with AB => LANE_Z_A | CD => LANE_Z_C end).
  assert (H2 : SI (addBoard uuidv4 sec startX z st1)).
  { apply (SI_cursors_up st1); [exact H1|apply addBoard_machines|].
    rewrite addBoard_cursors. unfold cursors_le; lia. }
  assert (H3 : SI (board_clear g (addBoard uuidv4 sec startX z st1))).
  { eapply SI_cursors_up; [exact H2| |apply board_clear_mono].
    unfold board_clear. destruct (groupLanes g). reflexivity. }
  assert (H4 : SI (place_ops uuidv4 g sec ops (board_clear g (addBoard uuidv4 sec startX z st1)))).
  { unfold place_ops. apply (fold_left_inv _ (fun a => SI (snd a))); [exact H3|].
    intros [t s] item _ Hs. apply place_run_SI. exact Hs. }
  eapply SI_cursors_up; [exact H4|apply end_fixtures_machines|apply end_fixtures_mono].
Qed.

(** Bounds inside an assembly section: lane D up to [dBound], lanes A, B, C
    up to [abcBound]. *)
Definition asm_bound (dBound abcBound : Z) (l : Lane) : Z :=
  match l with LD => dBound | _ => abcBound end.

Definition aproj (v : Operation * Lane * Z * option Z * Yaw) : Lane * Z :=
  (snd (fst (fst (fst v))), snd (fst (fst v))).

Lemma pview_aview M : map pview M = map aproj (map aview M).
Proof. rewrite map_map. reflexivity. Qed.

Lemma abc_lane_not_D i : abc_lane i <> LD.
Proof. unfold abc_lane. destruct i as [|[|[|i]]]; simpl; try discriminate. destruct i; discriminate. Qed.

Lemma abc_lane_inj a b : (a < 3)%nat -> (b < 3)%nat -> abc_lane a = abc_lane b -> a = b.
Proof.
  intros Ha Hb. destruct a as [|[|[|a]]]; destruct b as [|[|[|b]]]; simpl; try lia; discriminate.
Qed.

Lemma row_block_nodup (ac : Z) (n : nat) :
  NoDup (map (fun k => (abc_lane (k mod 3), ac + Z.of_nat (k / 3) * MACHINE_SPACING_X)) (seq 0 n)).
Proof.
  apply map_inj_nodup; [apply seq_NoDup|]. intros i j _ _ H.
  pose proof (f_equal fst H) as Hl. pose proof (f_equal snd H) as Hx. cbn [fst snd] in Hl, Hx.
  apply abc_lane_inj in Hl; [|apply Nat.mod_upper_bound; lia|apply Nat.mod_upper_bound; lia].
  unfold MACHINE_SPACING_X in Hx. assert (Hd : (i / 3 = j / 3)%nat) by lia.
  rewrite (Nat.div_mod_eq i 3), (Nat.div_mod_eq j 3), Hl, Hd. reflexivity.
Qed.

Lemma row_in_ceil (k n : nat) : (k < n)%nat -> Z.of_nat (k / 3) < ceil3 n.
Proof.
  intros Hk. unfold ceil3. rewrite Nat2Z.inj_div. change (Z.of_nat 3) with 3.
  Z.div_mod_to_equations. lia.
Qed.

Lemma assembly_main_SI sec ops startX s ac :
  PosInv (asm_bound startX ac) (map pview (machines (layout s))) ->
  let a := fold_left (assembly_main_op uuidv4 sec) ops (s, ac) in
  PosInv (asm_bound startX (snd a)) (map pview (machines (layout (fst a)))) /\ ac <= snd a.
Proof.
  revert s ac. induction ops as [|item rest IH]; intros s ac H; cbn [fold_left].
  - split; [exact H|simpl; lia].
  - destruct (assembly_main_op uuidv4 sec (s, ac) item) as [s' ac'] eqn:E.
    pose proof (assembly_main_op_machines uuidv4 sec s ac item) as H1.
    pose proof (assembly_main_op_cursors uuidv4 sec (s, ac) item) as [_ H2].
    rewrite E in H1, H2. cbn [fst snd] in H1, H2.
    pose proof (ceil3_nonneg (count item)) as Hc.
    assert (Hs' : PosInv (asm_bound startX ac') (map pview (machines (layout s')))).
    { rewrite pview_aview, H1, map_app, <- pview_aview, map_map.
      unfold aproj; cbn [fst snd].
      apply PosInv_block with (b := asm_bound startX ac); [exact H| apply row_block_nodup | |].
      - apply Forall_forall. intros p Hp. apply in_map_iff in Hp as [k [<- Hk]].
        apply in_seq in Hk. cbn [fst snd].
        pose proof (row_in_ceil k (count item) ltac:(lia)).
        destruct (abc_lane (k mod 3)) eqn:El; [| | |exfalso; exact (abc_lane_not_D _ El)];
          cbn [asm_bound]; unfold MACHINE_SPACING_X in *; lia.
      - intros []; simpl; unfold MACHINE_SPACING_X in *; lia. }
    destruct (IH s' ac' Hs') as [IH1 IH2]. split; [exact IH1|].
    unfold MACHINE_SPACING_X in *. lia.
Qed.

Lemma assembly_button_SI sec ops acF s d :
  PosInv (asm_bound d acF) (map pview (machines (layout s))) ->
  let a := fold_left (assembly_button_op uuidv4 sec) ops (s, d) in
  PosInv (asm_bound (snd a) acF) (map pview (machines (layout (fst a)))) /\ d <= snd a.
Proof.
  revert s d. induction ops as [|item rest IH]; intros s d H; cbn [fold_left].
  - split; [exact H|simpl; lia].
  - destruct (assembly_button_op uuidv4 sec (s, d) item) as [s' d'] eqn:E.
    pose proof (assembly_button_op_machines uuidv4 sec s d item) as H1.
    pose proof (assembly_button_op_cursors uuidv4 sec (s, d) item) as [_ H2].
    rewrite E in H1, H2. cbn [fst snd] in H1, H2.
    assert (Hs' : PosInv (asm_bound d' acF) (map pview (machines (layout s')))).
    { rewrite pview_aview, H1, map_app, <- pview_aview, map_map.
      unfold aproj; cbn [fst snd].
      apply PosInv_block with (b := asm_bound d acF); [exact H| apply run_block_nodup | |].
      - apply Forall_forall. intros p Hp. apply in_map_iff in Hp as [k [<- Hk]].
        apply in_seq in Hk. cbn [fst snd asm_bound]. unfold MACHINE_SPACING_X in *. lia.
      - intros []; simpl; unfold MACHINE_SPACING_X in *; lia. }
    destruct (IH s' d' Hs') as [IH1 IH2]. split; [exact IH1|].
    unfold MACHINE_SPACING_X in *. lia.
Qed.

Lemma assembly_section_SI sec ops st : SI st -> SI (assembly_section uuidv4 sec ops st).
Proof.
  intros H. unfold assembly_section, assembly_sync.
  set (startX := Z.max (Z.max (Z.max (cur_A (cursors st)) (cur_B (cursors st)))
                              (cur_C (cursors st))) (cur_D (cursors st)) + SECTION_GAP_X).
  set (st2 := addBoard uuidv4 "Assembly" startX 0 (with_cursors (mkCursors startX startX startX startX) st)).
  assert (H2 : PosInv (asm_bound startX startX) (map pview (machines (layout st2)))).
  { unfold st2. rewrite addBoard_machines. eapply PosInv_mono; [exact H|].
    unfold startX, SECTION_GAP_X. intros []; simpl; lia. }
  pose proof (assembly_main_SI sec (filter (fun i => negb (isButtonOp i)) ops) startX st2 startX H2)
    as [H3 Hac].
  destruct (fold_left (assembly_main_op uuidv4 sec) _ _) as [st3 acF] eqn:E3.
  cbn [fst snd] in H3, Hac.
  assert (H3' : PosInv (asm_bound startX acF) (map pview (machines (layout st3)))) by exact H3.
  pose proof (assembly_button_SI sec (filter isButtonOp ops) acF st3 startX H3') as [H4 Hd].
  destruct (fold_left (assembly_button_op uuidv4 sec) _ _) as [st4 dF] eqn:E4.
  cbn [fst snd] in H4, Hd.
  unfold SI, assembly_resync, with_cursors. cbn [layout cursors].
  eapply PosInv_mono; [exact H4|]. intros []; simpl; lia.
Qed.

Lemma process_section_SI st sec ops : SI st -> SI (process_section uuidv4 st sec ops).
Proof.
  unfold process_section. destruct (includes _ _).
  - apply assembly_section_SI.
  - apply parts_section_SI.
Qed.

End Distinct.

Lemma SI_init : SI init_st.
Proof. split; constructor. Qed.

Lemma run_layout_SI uuidv4 ops D W st : run_layout uuidv4 ops D W = Ok st -> SI st.
Proof.
  unfold run_layout. destruct (calculateMachineRequirements _ _ _); [|discriminate].
  destruct (groupSections a) as [order m]. intros Hst. injection Hst as <-.
  apply (fold_left_inv _ SI); [exact SI_init|].
  intros s sec _ Hs. apply process_section_SI; exact Hs.
Qed.

Lemma nodup_map_nth_error {A B : Type} (f : A -> B) (l : list A) i j x y :
  NoDup (map f l) -> nth_error l i = Some x -> nth_error l j = Some y -> f x = f y -> i = j.
Proof.
  intros Hn Hi Hj Hf. apply (proj1 (NoDup_nth_error _) Hn).
  - rewrite length_map. apply nth_error_Some. rewrite Hi; discriminate.
  - rewrite !nth_error_map, Hi, Hj. cbn. rewrite Hf; reflexivity.
Qed.

Definition u0 : nat -> string := fun _ => "u".

Definition sample_layout : list MachinePosition :=
  match generateLayout u0 (snls_op :: snls_op :: nil) 1%Q 1%Q with Ok l => l | Error _ => nil end.

(** Claim C2: in every layout returned by generateLayout, two machine
    entities (per-instance machines, not boards, inspection tables or
    trolleys) that have the same lane and the same position.x are the same
    entry of the list: no two machines share (lane, position.x). *)
Theorem C2_machines_distinct (uuidv4 : nat -> string) ops D W l :
  generateLayout uuidv4 ops D W = Ok l ->
  forall i j e1 e2,
    nth_error (machines l) i = Some e1 -> nth_error (machines l) j = Some e2 ->
    lane e1 = lane e2 -> position_x e1 = position_x e2 -> i = j.
Proof.
  intros Hg i j e1 e2 H1 H2 Hl Hx.
  destruct (generateLayout_run _ _ _ _ _ Hg) as [st [Hr ->]].
  destruct (run_layout_SI _ _ _ _ _ Hr) as [Hn _].
  apply (nodup_map_nth_error pview _ i j e1 e2 Hn H1 H2).
  unfold pview; rewrite Hl, Hx; reflexivity.
Qed.

Lemma C2_machines_distinct_witness :
  generateLayout u0 (snls_op :: snls_op :: nil) 1%Q 1%Q = Ok sample_layout /\
  exists e, nth_error (machines sample_layout) 1 = Some e /\ (1 = 1)%nat.
Proof.
  assert (H : generateLayout u0 (snls_op :: snls_op :: nil) 1%Q 1%Q = Ok sample_layout)
    by (vm_compute; reflexivity).
  split; [exact H|].
  destruct (nth_error (machines sample_layout) 1) as [e|] eqn:He; [|vm_compute in He; discriminate].
  exists e. split; [reflexivity|].
  exact (C2_machines_distinct u0 _ _ _ _ H 1 1 e e He He eq_refl eq_refl).
Defined.

Lemma C1_required_count_witness :
  (0 < 3)%Q /\ (0 < 2)%Q /\
  exists bal, calculateMachineRequirements (snls_op :: nil) 3%Q 2%Q = Ok bal /\
              map operation bal = snls_op :: nil.
Proof.
  assert (H3 : (0 < 3)%Q) by (vm_compute; reflexivity).
  assert (H2 : (0 < 2)%Q) by (vm_compute; reflexivity).
  split; [exact H3|]. split; [exact H2|].
  destruct (C1_required_count (snls_op :: nil) 3%Q 2%Q H3 H2) as [bal [Hb [Hm _]]].
  exists bal. split; [exact Hb | exact Hm].
Defined.

Definition c3_ops : list BalancedOp :=
  mkBalancedOp snls_op 2 :: mkBalancedOp snls_op 1 :: mkBalancedOp snls_op 1 :: nil.

Lemma C3_alternating_runs_witness :
  includes (toLowerCase "Cuff") assemblySection = false /\
  map mview (machines (layout (process_section u0 init_st "Cuff" c3_ops))) =
    alternating_runs LA 35 LB 35 c3_ops.
Proof.
  assert (H : includes (toLowerCase "Cuff") assemblySection = false) by (vm_compute; reflexivity).
  split; [exact H|].
  pose proof (C3_alternating_runs u0 "Cuff" c3_ops init_st H) as Hc. cbv zeta in Hc.
  destruct Hc as [Hc _]. rewrite Hc. vm_compute. reflexivity.
Defined.

Lemma C4_assembly_placement_witness :
  includes (toLowerCase "Assembly") assemblySection = true /\
  exists l, generateLayout u0 assembly_ops 1%Q 1%Q = Ok l.
Proof.
  assert (H : includes (toLowerCase "Assembly") assemblySection = true) by (vm_compute; reflexivity).
  split; [exact H|].
  destruct (C4_assembly_placement u0 "Assembly" nil init_st H) as [_ [l [Hl _]]].
  exists l; exact Hl.
Defined.

Lemma C10_boards_witness :
  generateLayout u0 (snls_op :: snls_op :: nil) 1%Q 1%Q = Ok sample_layout /\
  exists e, nth_error sample_layout 0 = Some e /\ is_board e = true /\ position_y e = 25.
Proof.
  assert (H : generateLayout u0 (snls_op :: snls_op :: nil) 1%Q 1%Q = Ok sample_layout)
    by (vm_compute; reflexivity).
  split; [exact H|].
  assert (Hb : option_map is_board (nth_error sample_layout 0) = Some true)
    by (vm_compute; reflexivity).
  destruct (nth_error sample_layout 0) as [e|] eqn:He; [|discriminate].
  injection Hb as Hb.
  exists e. split; [reflexivity|]. split; [exact Hb|].
  exact (proj1 (proj2 (C10_boards u0 _ _ _ _ e H (nth_error_In _ _ He) Hb))).
Defined.

(* ------------------------------------------------------------------ *)
(** ** Runs with two uuid supplies *)

(** Every field of an entity but its [id]. *)
Definition strip (e : MachinePosition) :=
  (mp_operation e, position_x e, position_y e, position_z e, rotation_y e,
   lane e, mp_section e, machineIndex e, isInspection e, isTrolley e).

(** Two states that differ at most in the ids of their entities. *)
Definition sim (s1 s2 : St) : Prop :=
  map strip (layout s1) = map strip (layout s2) /\ cursors s1 = cursors s2 /\ drawn s1 = drawn s2.

Definition simZ (p q : St * Z) : Prop := sim (fst p) (fst q) /\ snd p = snd q.

Definition simL (p q : Lane * St) : Prop := fst p = fst q /\ sim (snd p) (snd q).

Lemma fold_left_sim {A B : Type} (R : A -> A -> Prop) (f1 f2 : A -> B -> A) (l : list B) a1 a2 :
  R a1 a2 -> (forall b x1 x2, R x1 x2 -> R (f1 x1 b) (f2 x2 b)) ->
  R (fold_left f1 l a1) (fold_left f2 l a2).
Proof.
  revert a1 a2; induction l as [|b l IH]; intros a1 a2 H Hf; cbn [fold_left]; auto.
Qed.

Lemma sim_snoc L1 L2 c d e1 e2 :
  map strip L1 = map strip L2 -> strip e1 = strip e2 ->
  sim (mkSt (L1 ++ [e1]) c d) (mkSt (L2 ++ [e2]) c d).
Proof.
  intros HL He. split; [|split; reflexivity]. cbn [layout]. rewrite !map_app, HL. cbn. rewrite He; reflexivity.
Qed.

Lemma with_cursors_sim c s1 s2 : sim s1 s2 -> sim (with_cursors c s1) (with_cursors c s2).
Proof. intros (HL & _ & Hd). split; [exact HL|split; [reflexivity|exact Hd]]. Qed.

Lemma push_sim e s1 s2 : sim s1 s2 -> sim (push e s1) (push e s2).
Proof.
  intros (HL & Hc & Hd). unfold push. rewrite Hc, Hd. apply sim_snoc; [exact HL|reflexivity].
Qed.

Section Determinism.

Variables u1 u2 : nat -> string.

Lemma addMachine_sim op ln x k fr sn s1 s2 :
  sim s1 s2 -> sim (addMachine u1 op ln x k fr sn s1) (addMachine u2 op ln x k fr sn s2).
Proof.
  intros (HL & Hc & Hd). unfold addMachine. rewrite Hc, Hd.
  destruct ln; apply sim_snoc; (exact HL || reflexivity).
Qed.

Lemma addBoard_sim name x z s1 s2 :
  sim s1 s2 -> sim (addBoard u1 name x z s1) (addBoard u2 name x z s2).
Proof.
  intros (HL & Hc & Hd). unfold addBoard. rewrite Hc, Hd.
  apply sim_snoc; [exact HL|reflexivity].
Qed.

Lemma assembly_main_op_sim sec a1 a2 item :
  simZ a1 a2 -> simZ (assembly_main_op u1 sec a1 item) (assembly_main_op u2 sec a2 item).
Proof.
  destruct a1 as [s1 x1], a2 as [s2 x2]. intros [H Hx]. cbn [fst snd] in H, Hx. subst x2.
  unfold assembly_main_op. split; [|reflexivity]. cbn [fst].
  apply (fold_left_sim sim); [exact H|]. intros k t1 t2 Ht. apply addMachine_sim; exact Ht.
Qed.

Lemma assembly_button_op_sim sec a1 a2 item :
  simZ a1 a2 -> simZ (assembly_button_op u1 sec a1 item) (assembly_button_op u2 sec a2 item).
Proof.
  intros H. unfold assembly_button_op. apply (fold_left_sim simZ); [exact H|].
  intros k [t1 d1] [t2 d2] [Ht Hd]. cbn [fst snd] in Ht, Hd. subst d2.
  split; [apply addMachine_sim; exact Ht|reflexivity].
Qed.

Lemma assembly_section_sim sec ops s1 s2 :
  sim s1 s2 -> sim (assembly_section u1 sec ops s1) (assembly_section u2 sec ops s2).
Proof.
  intros H. unfold assembly_section, assembly_sync.
  destruct H as (HL & Hc & Hd). rewrite Hc.
  set (x := Z.max (Z.max (Z.max (cur_A (cursors s2)) (cur_B (cursors s2))) (cur_C (cursors s2)))
              (cur_D (cursors s2)) + SECTION_GAP_X).
  assert (H2 : sim (addBoard u1 "Assembly" x 0 (with_cursors (mkCursors x x x x) s1))
                   (addBoard u2 "Assembly" x 0 (with_cursors (mkCursors x x x x) s2))).
  { apply addBoard_sim, with_cursors_sim. split; [exact HL|split; assumption]. }
  pose proof (fold_left_sim simZ (assembly_main_op u1 sec) (assembly_main_op u2 sec)
                (filter (fun i => negb (isButtonOp i)) ops) (_, x) (_, x)
                (conj H2 eq_refl) (fun b a1 a2 => assembly_main_op_sim sec a1 a2 b)) as H3.
  destruct (fold_left (assembly_main_op u1 sec) _ _) as [t1 a1].
  destruct (fold_left (assembly_main_op u2 sec) _ _) as [t2 a2].
  destruct H3 as [H3 Ha]. cbn [fst snd] in H3, Ha. subst a2.
  pose proof (fold_left_sim simZ (assembly_button_op u1 sec) (assembly_button_op u2 sec)
                (filter isButtonOp ops) (t1, x) (t2, x)
                (conj H3 eq_refl) (fun b a1 a2 => assembly_button_op_sim sec a1 a2 b)) as H4.
  destruct (fold_left (assembly_button_op u1 sec) _ _) as [t3 d1].
  destruct (fold_left (assembly_button_op u2 sec) _ _) as [t4 d2].
  destruct H4 as [H4 Hd']. cbn [fst snd] in H4, Hd'. subst d2.
  unfold assembly_resync. apply with_cursors_sim; exact H4.
Qed.

Lemma place_run_sim sec t item s1 s2 :
  sim s1 s2 -> sim (place_run u1 sec t item s1) (place_run u2 sec t item s2).
Proof.
  intros H. unfold place_run.
  pose proof (fold_left_sim simZ
    (fun '(st, xPos) k => (addMachine u1 (operation item) t xPos k None (Some sec) st, xPos + MACHINE_SPACING_X))
    (fun '(st, xPos) k => (addMachine u2 (operation item) t xPos k None (Some sec) st, xPos + MACHINE_SPACING_X))
    (seq 0 (count item)) (s1, get_cursor (cursors s1) t) (s2, get_cursor (cursors s2) t)) as Hf.
  destruct (fold_left _ _ (s1, _)) as [t1 x1].
  destruct (fold_left _ _ (s2, _)) as [t2 x2].
  destruct Hf as [Hf Hx].
  - split; [exact H|]. cbn [snd]. destruct H as (_ & -> & _). reflexivity.
  - intros k [a1 y1] [a2 y2] [Ha Hy]. cbn [fst snd] in Ha, Hy. subst y2.
    split; [apply addMachine_sim; exact Ha|reflexivity].
  - cbn [fst snd] in Hf, Hx. subst x2. destruct Hf as (HL & Hc & Hd).
    rewrite Hc. apply with_cursors_sim. split; [exact HL|split; assumption].
Qed.

Lemma place_op_sim g sec a1 a2 item :
  simL a1 a2 -> simL (place_op u1 g sec a1 item) (place_op u2 g sec a2 item).
Proof.
  destruct a1 as [l1 s1], a2 as [l2 s2]. intros [Hl H]. cbn [fst snd] in Hl, H. subst l2.
  split; [reflexivity|]. apply place_run_sim; exact H.
Qed.

Lemma pair_sync_sim g s1 s2 :
  sim s1 s2 -> fst (pair_sync g s1) = fst (pair_sync g s2) /\ sim (snd (pair_sync g s1)) (snd (pair_sync g s2)).
Proof.
  intros H. unfold pair_sync. destruct (groupLanes g).
  pose proof H as (_ & Hc & _). rewrite Hc. split; [reflexivity|]. apply with_cursors_sim; exact H.
Qed.

Lemma board_clear_sim g s1 s2 : sim s1 s2 -> sim (board_clear g s1) (board_clear g s2).
Proof.
  intros H. unfold board_clear. destruct (groupLanes g).
  pose proof H as (_ & Hc & _). rewrite Hc. apply with_cursors_sim; exact H.
Qed.

Lemma place_ops_sim g sec ops s1 s2 :
  sim s1 s2 -> sim (place_ops u1 g sec ops s1) (place_ops u2 g sec ops s2).
Proof.
  intros H. unfold place_ops. apply (fold_left_sim simL); [split; [reflexivity|exact H]|].
  intros; apply place_op_sim; assumption.
Qed.

Lemma end_fixtures_sim g sec s1 s2 : sim s1 s2 -> sim (end_fixtures g sec s1) (end_fixtures g sec s2).
Proof.
  intros (HL & Hc & Hd). unfold end_fixtures, push, with_cursors.
  rewrite Hc, Hd. destruct (groupLanes _).
  split; [cbn [layout]; rewrite !map_app, HL; reflexivity|split; reflexivity].
Qed.

Lemma parts_section_sim sec ops s1 s2 :
  sim s1 s2 -> sim (parts_section u1 sec ops s1) (parts_section u2 sec ops s2).
Proof.
  intros H. unfold parts_section.
  pose proof (pair_sync_sim (targetGroup (toLowerCase sec)) s1 s2 H) as [Hx Ht].
  destruct (pair_sync _ s1) as [x1 t1]. destruct (pair_sync _ s2) as [x2 t2].
  cbn [fst snd] in Hx, Ht. subst x2.
  apply end_fixtures_sim, place_ops_sim, board_clear_sim, addBoard_sim; exact Ht.
Qed.

Lemma process_section_sim sec ops s1 s2 :
  sim s1 s2 -> sim (process_section u1 s1 sec ops) (process_section u2 s2 sec ops).
Proof.
  unfold process_section. destruct (includes _ _).
  - apply assembly_section_sim.
  - apply parts_section_sim.
Qed.

Lemma run_layout_sim ops D W :
  match run_layout u1 ops D W, run_layout u2 ops D W with
  | Ok s1, Ok s2 => sim s1 s2
  | Error e1, Error e2 => e1 = e2
  | _, _ => False
  end.
Proof.
  unfold run_layout. destruct (calculateMachineRequirements _ _ _) as [bal|e]; [|reflexivity].
  destruct (groupSections bal) as [order m].
  apply (fold_left_sim sim); [split; [reflexivity|split; reflexivity]|].
  intros sec t1 t2 Ht. apply process_section_sim; exact Ht.
Qed.

End Determinism.
(* ------------------------------------------------------------------ *)
(** ** Section grouping in first-seen order *)

(** The distinct elements of a list, each at its first occurrence. *)
Fixpoint first_seen (l : list string) : list string :=
  match l with
  | [] => []
  | x :: r => x :: remove string_dec x (first_seen r)
  end.

Lemma in_first_seen x l : In x (first_seen l) <-> In x l.
Proof.
  induction l as [|y l IH]; cbn [first_seen]; [tauto|].
  split.
  - intros [<-|Hx]; [left; reflexivity|]. apply in_remove in Hx as [Hx _]. right; apply IH; exact Hx.
  - intros [<-|Hx]; [left; reflexivity|].
    destruct (string_dec y x) as [<-|Hne]; [left; reflexivity|].
    right. apply in_in_remove; [congruence|apply IH; exact Hx].
Qed.

Lemma first_seen_snoc l x :
  first_seen (l ++ [x]) = if in_dec string_dec x l then first_seen l else first_seen l ++ [x].
Proof.
  induction l as [|y l IH]; [reflexivity|].
  cbn [app first_seen]. rewrite IH.
  destruct (in_dec string_dec x l) as [Hi|Hi];
    destruct (in_dec string_dec x (y :: l)) as [Hi'|Hi'].
  - reflexivity.
  - exfalso; apply Hi'; right; exact Hi.
  - rewrite remove_app. cbn [remove]. destruct (string_dec y x) as [<-|Hne].
    + rewrite app_nil_r; reflexivity.
    + exfalso. destruct Hi' as [<-|Hi']; [apply Hne; reflexivity|contradiction].
  - rewrite remove_app. cbn [remove]. destruct (string_dec y x) as [<-|Hne].
    + exfalso; apply Hi'; left; reflexivity.
    + reflexivity.
Qed.

Lemma existsb_key s p :
  existsb (fun i => String.eqb (sectionKey i) s) p = true <-> In s (map sectionKey p).
Proof.
  rewrite existsb_exists, in_map_iff. split.
  - intros [i [Hi He]]. apply String.eqb_eq in He. exists i; auto.
  - intros [i [He Hi]]. exists i. split; [exact Hi|apply String.eqb_eq; exact He].
Qed.

Lemma map_has_app s m k l : map_has s (m ++ [(k, l)]) = map_has s m || String.eqb k s.
Proof. unfold map_has. rewrite existsb_app. cbn. rewrite orb_false_r. reflexivity. Qed.

Lemma map_get_not_has s m : map_has s m = false -> map_get s m = [].
Proof.
  unfold map_has, map_get. intros H.
  destruct (find _ m) as [p|] eqn:E; [|reflexivity].
  apply find_some in E as [Hp Hs]. exfalso.
  assert (existsb (fun p => String.eqb (fst p) s) m = true) by (apply existsb_exists; eauto).
  congruence.
Qed.

Lemma map_get_app s m k l :
  map_get s (m ++ [(k, l)]) = if map_has s m then map_get s m else if String.eqb k s then l else [].
Proof.
  unfold map_get, map_has. induction m as [|p m IH]; cbn.
  - destruct (String.eqb k s); reflexivity.
  - destruct (String.eqb (fst p) s); cbn; [reflexivity|exact IH].
Qed.

Lemma map_has_push s k item m : map_has s (map_push k item m) = map_has s m.
Proof.
  unfold map_has, map_push. induction m as [|p m IH]; cbn; [reflexivity|].
  rewrite IH. destruct (String.eqb (fst p) k); reflexivity.
Qed.

Lemma map_get_push s k item m :
  map_get s (map_push k item m) =
  if String.eqb k s && map_has s m then map_get s m ++ [item] else map_get s m.
Proof.
  unfold map_get, map_has, map_push. induction m as [|[k' l'] m IH]; cbn [map find existsb fst snd].
  - rewrite andb_false_r. reflexivity.
  - destruct (String.eqb_spec k' k) as [<-|Hk]; destruct (String.eqb_spec k' s) as [<-|Hs];
      cbn [find fst snd orb andb].
    + rewrite String.eqb_refl. reflexivity.
    + apply String.eqb_neq in Hs. rewrite Hs. exact IH.
    + rewrite String.eqb_refl. apply String.eqb_neq in Hk. rewrite String.eqb_sym, Hk. reflexivity.
    + apply String.eqb_neq in Hk, Hs. rewrite ?Hk, ?Hs. exact IH.
Qed.

(** The grouping state after the prefix [p] of the balanced operations. *)
Definition group_inv (acc : list string * SectionsMap) (p : list BalancedOp) : Prop :=
  fst acc = first_seen (map sectionKey p) /\
  (forall s, map_has s (snd acc) = existsb (fun i => String.eqb (sectionKey i) s) p) /\
  (forall s, map_get s (snd acc) = filter (fun i => String.eqb (sectionKey i) s) p).

Lemma group_step_inv acc p item : group_inv acc p -> group_inv (group_step acc item) (p ++ [item]).
Proof.
  destruct acc as [order m]. intros (Ho & Hh & Hg). cbn [fst snd] in Ho, Hh, Hg.
  unfold group_step, group_inv. cbv beta iota zeta. rewrite map_app. cbn [map]. rewrite first_seen_snoc.
  destruct (map_has (sectionKey item) m) eqn:Ek.
  - assert (Hin : In (sectionKey item) (map sectionKey p))
      by (apply existsb_key; rewrite <- Hh; exact Ek).
    destruct (in_dec string_dec (sectionKey item) (map sectionKey p)) as [_|Hn]; [|contradiction].
    cbn [fst snd]. split; [exact Ho|split]; intros s.
    + rewrite map_has_push, Hh, existsb_app. cbn [existsb]. rewrite orb_false_r.
      destruct (String.eqb_spec (sectionKey item) s) as [<-|_].
      * rewrite <- Hh, Ek. reflexivity.
      * rewrite orb_false_r. reflexivity.
    + rewrite map_get_push, filter_app, Hg. cbn [filter].
      destruct (String.eqb_spec (sectionKey item) s) as [<-|_].
      * rewrite Ek. reflexivity.
      * rewrite app_nil_r. reflexivity.
  - assert (Hn : ~ In (sectionKey item) (map sectionKey p))
      by (rewrite <- existsb_key, <- Hh, Ek; discriminate).
    destruct (in_dec string_dec (sectionKey item) (map sectionKey p)) as [Hi|_]; [contradiction|].
    cbn [fst snd]. split; [rewrite Ho; reflexivity|split]; intros s.
    + rewrite map_has_push, map_has_app, Hh, existsb_app. cbn [existsb]. rewrite orb_false_r. reflexivity.
    + rewrite map_get_push, map_has_app, map_get_app, filter_app, <- Hg. cbn [filter].
      destruct (String.eqb_spec (sectionKey item) s) as [<-|_].
      * rewrite Ek, (map_get_not_has _ _ Ek). reflexivity.
      * rewrite orb_false_r, app_nil_r. destruct (map_has s m) eqn:Es; [reflexivity|].
        symmetry; apply map_get_not_has; exact Es.
Qed.

Lemma groupSections_inv bal : group_inv (groupSections bal) bal.
Proof.
  unfold groupSections. rewrite <- (app_nil_l bal) at 2.
  assert (H0 : group_inv ([], []) []) by (split; [reflexivity|split; reflexivity]).
  revert H0. generalize (@nil BalancedOp) as p. generalize (@nil string, @nil (string * list BalancedOp)) as acc.
  induction bal as [|item rest IH]; intros acc p H; cbn [fold_left].
  - rewrite app_nil_r; exact H.
  - replace (p ++ item :: rest) with ((p ++ [item]) ++ rest) by (rewrite <- app_assoc; reflexivity).
    apply IH, group_step_inv, H.
Qed.

Lemma fold_left_ext_eq {A B : Type} (f g : A -> B -> A) (l : list B) a :
  (forall x b, f x b = g x b) -> fold_left f l a = fold_left g l a.
Proof. revert a; induction l as [|b l IH]; intros a H; cbn; [reflexivity|rewrite H; apply IH, H]. Qed.

Lemma run_layout_first_seen u ops D W :
  run_layout u ops D W =
  match calculateMachineRequirements ops D W with
  | Error e => Error e
  | Ok bal =>
      Ok (fold_left (fun st s => process_section u st s (filter (fun i => String.eqb (sectionKey i) s) bal))
                    (first_seen (map sectionKey bal)) init_st)
  end.
Proof.
  unfold run_layout. destruct (calculateMachineRequirements _ _ _) as [bal|e]; [|reflexivity].
  pose proof (groupSections_inv bal) as (Ho & _ & Hg).
  destruct (groupSections bal) as [order m]. cbn [fst snd] in Ho, Hg. subst order.
  f_equal. apply fold_left_ext_eq. intros st s. rewrite Hg. reflexivity.
Qed.

(** Claim C8: generateLayout is deterministic up to identifiers. For two
    uuid supplies [u1] and [u2] and the same operations, target and working
    time, either both calls fail with the same error or both return layouts
    of the same length that agree entry by entry on every field except the
    id (operation, position x/y/z, yaw, lane, section, machineIndex and the
    fixture flags). The sections are visited in first-seen order of their
    keys, each with its operations in input order. *)
Theorem C8_deterministic (u1 u2 : nat -> string) ops D W :
  match generateLayout u1 ops D W, generateLayout u2 ops D W with
  | Ok l1, Ok l2 => List.length l1 = List.length l2 /\ map strip l1 = map strip l2
  | Error e1, Error e2 => e1 = e2
  | _, _ => False
  end /\
  run_layout u1 ops D W =
  match calculateMachineRequirements ops D W with
  | Error e => Error e
  | Ok bal =>
      Ok (fold_left (fun st s => process_section u1 st s (filter (fun i => String.eqb (sectionKey i) s) bal))
                    (first_seen (map sectionKey bal)) init_st)
  end.
Proof.
  split; [|apply run_layout_first_seen].
  pose proof (run_layout_sim u1 u2 ops D W) as H. unfold generateLayout.
  destruct (run_layout u1 ops D W) as [s1|e1], (run_layout u2 ops D W) as [s2|e2];
    try contradiction; [|exact H].
  destruct H as (HL & _ & _). split; [|exact HL].
  rewrite <- (length_map strip (layout s1)), <- (length_map strip (layout s2)), HL. reflexivity.
Qed.

(* ------------------------------------------------------------------ *)
(** ** Further properties of [generateLayout] *)

Lemma alternating_runs_length l1 c1 l2 c2 ops :
  List.length (alternating_runs l1 c1 l2 c2 ops) = list_sum (map count ops).
Proof.
  revert l1 c1 l2 c2. induction ops as [|item rest IH]; intros; [reflexivity|].
  cbn [alternating_runs map list_sum fold_right].
  rewrite length_app, length_map, length_seq, IH. reflexivity.
Qed.

Lemma round_robin_runs_length base ops :
  List.length (round_robin_runs base ops) = list_sum (map count ops).
Proof.
  revert base. induction ops as [|item rest IH]; intros; [reflexivity|].
  cbn [round_robin_runs map list_sum fold_right].
  rewrite length_app, length_map, length_seq, IH. reflexivity.
Qed.

Lemma sequential_runs_length x ops :
  List.length (sequential_runs x ops) = list_sum (map count ops).
Proof.
  revert x. induction ops as [|item rest IH]; intros; [reflexivity|].
  cbn [sequential_runs map list_sum fold_right].
  rewrite length_app, length_map, length_seq, IH. reflexivity.
Qed.

Lemma list_sum_filter_split (f : BalancedOp -> bool) ops :
  (list_sum (map count (filter (fun i => negb (f i)) ops)) +
   list_sum (map count (filter f ops)) = list_sum (map count ops))%nat.
Proof.
  induction ops as [|item rest IH]; [reflexivity|].
  simpl. destruct (f item); simpl; lia.
Qed.

Lemma process_section_machine_count u st sec ops :
  List.length (machines (layout (process_section u st sec ops))) =
  (List.length (machines (layout st)) + list_sum (map count ops))%nat.
Proof.
  unfold process_section. destruct (includes _ _).
  - pose proof (assembly_section_machines u sec ops st) as H. cbv zeta in H.
    apply (f_equal (@List.length _)) in H. rewrite !length_map, !length_app, length_map in H.
    rewrite H, round_robin_runs_length, sequential_runs_length.
    pose proof (list_sum_filter_split isButtonOp ops). lia.
  - pose proof (parts_section_machines u sec ops st) as H. cbv zeta in H.
    apply (f_equal (@List.length _)) in H. rewrite !length_map, length_app, length_map in H.
    rewrite H, alternating_runs_length. reflexivity.
Qed.

Lemma NoDup_remove_str x l : NoDup l -> NoDup (remove string_dec x l).
Proof.
  induction l as [|y l IH]; intros Hn; cbn [remove]; [constructor|].
  inversion Hn as [|? ? Hy Hn']; subst.
  destruct (string_dec x y); [apply IH; exact Hn'|].
  constructor; [|apply IH; exact Hn'].
  intros Hi. apply in_remove in Hi as [Hi _]. contradiction.
Qed.

Lemma NoDup_first_seen l : NoDup (first_seen l).
Proof.
  induction l as [|x l IH]; cbn [first_seen]; constructor.
  - apply remove_In.
  - apply NoDup_remove_str; exact IH.
Qed.

Lemma sum_over_keys_one k a (g : string -> nat) S :
  NoDup S -> In k S ->
  list_sum (map (fun s => if String.eqb k s then (a + g s)%nat else g s) S) =
  (a + list_sum (map g S))%nat.
Proof.
  induction S as [|s S IH]; intros Hn Hk; [contradiction|].
  inversion Hn as [|? ? Hs Hn']; subst. cbn [map list_sum fold_right].
  destruct (String.eqb_spec k s) as [<-|Hne].
  - assert (E : map (fun s => if String.eqb k s then (a + g s)%nat else g s) S = map g S).
    { apply map_ext_in. intros s' Hs'. destruct (String.eqb_spec k s') as [<-|_]; [contradiction|reflexivity]. }
    rewrite E. lia.
  - destruct Hk as [<-|Hk]; [congruence|]. specialize (IH Hn' Hk). unfold list_sum in IH. lia.
Qed.

Lemma sum_over_keys S bal :
  NoDup S -> (forall i, In i bal -> In (sectionKey i) S) ->
  list_sum (map (fun s => list_sum (map count (filter (fun i => String.eqb (sectionKey i) s) bal))) S) =
  list_sum (map count bal).
Proof.
  intros Hn. induction bal as [|item rest IH]; intros Hin.
  - clear Hn Hin. unfold list_sum. induction S as [|s S IHS]; simpl; auto.
  - transitivity (list_sum (map (fun s =>
        if String.eqb (sectionKey item) s
        then (count item + list_sum (map count (filter (fun i => String.eqb (sectionKey i) s) rest)))%nat
        else list_sum (map count (filter (fun i => String.eqb (sectionKey i) s) rest))) S)).
    + f_equal. apply map_ext. intros s. cbn [filter].
      destruct (String.eqb (sectionKey item) s); reflexivity.
    + rewrite sum_over_keys_one by (auto; apply Hin; left; reflexivity).
      rewrite IH by (intros i Hi; apply Hin; right; exact Hi). reflexivity.
Qed.

Lemma fold_sections_machine_count u (F : string -> list BalancedOp) S st :
  List.length (machines (layout (fold_left (fun st s => process_section u st s (F s)) S st))) =
  (List.length (machines (layout st)) + list_sum (map (fun s => list_sum (map count (F s))) S))%nat.
Proof.
  revert st. induction S as [|s S IH]; intros st; cbn [fold_left map].
  - cbn. lia.
  - rewrite IH, process_section_machine_count. unfold list_sum. cbn [fold_right]. lia.
Qed.

(** X1. The layout holds exactly one machine entry per machine the capacity
    planner asked for: the number of machine entries is the sum of the
    [count]s of the balanced operations. *)
Theorem X1_machine_count u ops D W l bal :
  generateLayout u ops D W = Ok l -> calculateMachineRequirements ops D W = Ok bal ->
  List.length (machines l) = list_sum (map count bal).
Proof.
  intros Hg Hc. apply generateLayout_run in Hg as [st [Hr ->]].
  rewrite run_layout_first_seen, Hc in Hr. injection Hr as <-.
  rewrite fold_sections_machine_count. cbn [layout machines filter List.length].
  apply sum_over_keys; [apply NoDup_first_seen|].
  intros i Hi. apply in_first_seen, in_map; exact Hi.
Qed.

(** The [z] that [addMachine] gives to each lane. *)
Definition lane_z (l : Lane) : Z :=
  match l with LA => LANE_Z_A | LB => LANE_Z_B | LC => LANE_Z_C | LD => LANE_Z_D end.

Definition machine_geom (e : MachinePosition) : Prop :=
  is_machine e = true ->
  position_y e = 0 /\ position_z e = lane_z (lane e) /\
  exists k : nat, machineIndex e = Some (Z.of_nat k) /\ exists u, id e = IdMachine (op_no (mp_operation e)) k u.

(** X2. Every machine entry of a layout stands on the floor ([y = 0]) on
    the line of its lane ([z] is [LANE_Z_A], [LANE_Z_B], [LANE_Z_C] or
    [LANE_Z_D] according to its lane) and carries a non-negative sequence
    index [k], which is also the middle part of its id
    [op_no-k-uuid]. *)
Theorem X2_machine_geometry u ops D W l e :
  generateLayout u ops D W = Ok l -> In e l -> is_machine e = true ->
  position_y e = 0 /\ position_z e = lane_z (lane e) /\
  exists k : nat, machineIndex e = Some (Z.of_nat k) /\ exists uu, id e = IdMachine (op_no (mp_operation e)) k uu.
Proof.
  intros Hg Hin Hm. apply generateLayout_run in Hg as [st [Hr ->]].
  assert (HF : Forall machine_geom (layout st)).
  { apply (run_layout_preserves u machine_geom) with (ops := ops) (D := D) (W := W); [| | |exact Hr].
    - intros op ln x k fr sn s Hs. unfold addMachine. destruct ln; cbn [layout];
        (apply Forall_snoc; [exact Hs|]); intros _; cbn;
        (split; [reflexivity|split; [reflexivity|exists k; split; [reflexivity|eexists; reflexivity]]]).
    - intros name x z s Hs. unfold addBoard. cbn [layout]. apply Forall_snoc; [exact Hs|].
      intros Hb; discriminate.
    - intros e' He' Hb'. unfold is_machine in Hb'. destruct (id e'); try contradiction; discriminate. }
  rewrite Forall_forall in HF. exact (HF e Hin Hm).
Qed.

(** [item.operation.section || 'Unknown'] for an operation. *)
Definition opKey (op : Operation) : string :=
  if String.eqb (section op) "" then "Unknown" else section op.

Section PreserveIn.

Variable uuidv4 : nat -> string.
Variable P : MachinePosition -> Prop.
Variable sec : string.
Variable ops : list BalancedOp.

Hypothesis P_addMachine_in : forall item ln x k fr st,
  In item ops -> Forall P (layout st) ->
  Forall P (layout (addMachine uuidv4 (operation item) ln x k fr (Some sec) st)).
Hypothesis P_addBoard_in : forall name x z st,
  Forall P (layout st) -> Forall P (layout (addBoard uuidv4 name x z st)).
Hypothesis P_fixture_in : forall e,
  match id e with IdInspect _ | IdTrolley _ => True | _ => False end -> P e.

Lemma assembly_section_preserves_in st :
  Forall P (layout st) -> Forall P (layout (assembly_section uuidv4 sec ops st)).
Proof.
  intros H. unfold assembly_section.
  destruct (assembly_sync st) as [startX st1] eqn:Es.
  assert (H1 : Forall P (layout st1)) by (unfold assembly_sync in Es; injection Es as _ <-; exact H).
  pose proof (P_addBoard_in "Assembly" startX 0 st1 H1) as H2.
  destruct (fold_left (assembly_main_op uuidv4 sec) _ _) as [st3 ac] eqn:E3.
  assert (H3 : Forall P (layout st3)).
  { change st3 with (fst (st3, ac)). rewrite <- E3.
    apply (fold_left_inv _ (fun a => Forall P (layout (fst a)))); [exact H2|].
    intros [s a] item Hi Hs. apply filter_In in Hi as [Hi _].
    unfold assembly_main_op. simpl.
    apply (fold_left_inv _ (fun s => Forall P (layout s))); [exact Hs|].
    intros s' k _ Hs'. cbv beta zeta. apply P_addMachine_in; assumption. }
  destruct (fold_left (assembly_button_op uuidv4 sec) _ _) as [st4 dc] eqn:E4.
  assert (H4 : Forall P (layout st4)).
  { change st4 with (fst (st4, dc)). rewrite <- E4.
    apply (fold_left_inv _ (fun a => Forall P (layout (fst a)))); [exact H3|].
    intros a item Hi Ha. apply filter_In in Hi as [Hi _]. unfold assembly_button_op.
    apply (fold_left_inv _ (fun a => Forall P (layout (fst a)))); [exact Ha|].
    intros [s' d'] k _ Hs'. cbn -[addMachine]. apply P_addMachine_in; assumption. }
  exact H4.
Qed.

Lemma parts_section_preserves_in st :
  Forall P (layout st) -> Forall P (layout (parts_section uuidv4 sec ops st)).
Proof.
  intros H. unfold parts_section.
  destruct (pair_sync _ st) as [startX st1] eqn:Es.
  assert (H1 : Forall P (layout st1)).
  { unfold pair_sync in Es. destruct (groupLanes _). injection Es as _ <-. exact H. }
  apply P_addBoard_in with (name := sec) (x := startX)
    (z := match targetGroup (toLowerCase sec) with AB => LANE_Z_A | CD => LANE_Z_C end) in H1.
  assert (H3 : forall g s, Forall P (layout s) -> Forall P (layout (board_clear g s))).
  { intros g s Hs. unfold board_clear. destruct (groupLanes g). exact Hs. }
  apply (H3 (targetGroup (toLowerCase sec))) in H1.
  assert (H4 : Forall P (layout (place_ops uuidv4 (targetGroup (toLowerCase sec)) sec ops
                 (board_clear (targetGroup (toLowerCase sec))
                    (addBoard uuidv4 sec startX
                       match targetGroup (toLowerCase sec) with AB => LANE_Z_A | CD => LANE_Z_C end st1))))).
  { unfold place_ops.
    apply (fold_left_inv _ (fun a => Forall P (layout (snd a)))); [exact H1|].
    intros [t s] item Hi Hs. simpl. unfold place_run.
    destruct (fold_left _ _ _) as [s' x'] eqn:E. simpl.
    change s' with (fst (s', x')). rewrite <- E.
    apply (fold_left_inv _ (fun a => Forall P (layout (fst a)))); [exact Hs|].
    intros [s1 x1] k _ Hs1. cbn -[addMachine]. apply P_addMachine_in; assumption. }
  unfold end_fixtures. destruct (groupLanes _) as [l1 l2] eqn:Eg. simpl.
  apply Forall_snoc; [apply Forall_snoc; [exact H4|]|]; apply P_fixture_in; exact I.
Qed.

Lemma process_section_preserves_in st :
  Forall P (layout st) -> Forall P (layout (process_section uuidv4 st sec ops)).
Proof.
  unfold process_section. destruct (includes _ _).
  - apply assembly_section_preserves_in.
  - apply parts_section_preserves_in.
Qed.

End PreserveIn.

Definition machine_label (e : MachinePosition) : Prop :=
  is_machine e = true -> mp_section e = opKey (mp_operation e).

Lemma sectionKey_nonempty i : sectionKey i <> "".
Proof. unfold sectionKey. destruct (String.eqb_spec (section (operation i)) ""); congruence. Qed.

(** X3. Every machine entry is labelled with the section of its operation,
    with an empty section replaced by ["Unknown"]: its [section] field is
    [op.section || 'Unknown'], the key under which the operation was
    grouped. *)
Theorem X3_machine_section_label u ops D W l e :
  generateLayout u ops D W = Ok l -> In e l -> is_machine e = true ->
  mp_section e = (if String.eqb (section (mp_operation e)) "" then "Unknown" else section (mp_operation e)).
Proof.
  intros Hg Hin Hm. apply generateLayout_run in Hg as [st [Hr ->]].
  rewrite run_layout_first_seen in Hr.
  destruct (calculateMachineRequirements ops D W) as [bal|err]; [|discriminate].
  injection Hr as <-.
  assert (HF : Forall machine_label
     (layout (fold_left (fun st s => process_section u st s
                (filter (fun i => String.eqb (sectionKey i) s) bal))
              (first_seen (map sectionKey bal)) init_st))).
  { apply (fold_left_inv _ (fun s => Forall machine_label (layout s))); [constructor|].
    intros s k Hk Hs. apply process_section_preserves_in; [| | |exact Hs].
    - intros item ln x n fr st' Hi Hst. apply filter_In in Hi as [_ Hi].
      apply String.eqb_eq in Hi.
      assert (Hne : k <> "") by (rewrite <- Hi; apply sectionKey_nonempty).
      unfold addMachine. destruct ln; cbn [layout];
        (apply Forall_snoc; [exact Hst|]); intros _; cbn [mp_section mp_operation];
        (destruct (String.eqb_spec k "") as [|_]; [contradiction|]); rewrite <- Hi; reflexivity.
    - intros name x z st' Hst. unfold addBoard. cbn [layout]. apply Forall_snoc; [exact Hst|].
      intros Hb; discriminate.
    - intros e' He' Hb'. unfold is_machine in Hb'. destruct (id e'); try contradiction; discriminate. }
  rewrite Forall_forall in HF. exact (HF e Hin Hm).
Qed.

(** The names of the section boards of a state, in layout order. *)
Definition bview (st : St) : list string := map mp_section (filter is_board (layout st)).

(** The board [process_section] draws for a section. *)
Definition boardName (secName : string) : string :=
  if includes (toLowerCase secName) assemblySection then "Assembly" else secName.

Lemma bview_addMachine u op ln x k fr sn st :
  bview (addMachine u op ln x k fr sn st) = bview st.
Proof.
  unfold bview, addMachine. destruct ln; cbn [layout]; rewrite filter_app, app_nil_r; reflexivity.
Qed.

Lemma bview_addBoard u name x z st :
  bview (addBoard u name x z st) = bview st ++ [name].
Proof. unfold bview, addBoard. cbn [layout]. rewrite filter_app, map_app. reflexivity. Qed.

Lemma bview_process_section u st sec ops :
  bview (process_section u st sec ops) = bview st ++ [boardName sec].
Proof.
  unfold process_section, boardName. destruct (includes _ _).
  - unfold assembly_section. cbn [assembly_sync].
    destruct (fold_left (assembly_main_op u sec) _ _) as [st3 ac] eqn:E3.
    destruct (fold_left (assembly_button_op u sec) _ _) as [st4 dc] eqn:E4.
    assert (H3 : bview st3 = bview st ++ ["Assembly"]).
    { change st3 with (fst (st3, ac)). rewrite <- E3.
      apply (fold_left_inv _ (fun a => bview (fst a) = bview st ++ ["Assembly"])).
      - cbn [fst]. rewrite bview_addBoard. reflexivity.
      - intros [s a] item _ Hs. unfold assembly_main_op. cbn [fst] in *.
        rewrite <- Hs. apply (fold_left_inv _ (fun s' => bview s' = bview s)); [reflexivity|].
        intros s' k _ Hs'. cbv beta zeta. rewrite bview_addMachine; exact Hs'. }
    assert (H4 : bview st4 = bview st ++ ["Assembly"]).
    { change st4 with (fst (st4, dc)). rewrite <- E4.
      apply (fold_left_inv _ (fun a => bview (fst a) = bview st ++ ["Assembly"])); [exact H3|].
      intros a item _ Ha. unfold assembly_button_op. rewrite <- Ha.
      apply (fold_left_inv _ (fun a' => bview (fst a') = bview (fst a))); [reflexivity|].
      intros [s' d'] k _ Hs'. cbn -[addMachine bview]. rewrite bview_addMachine; exact Hs'. }
    exact H4.
  - unfold parts_section. destruct (pair_sync _ st) as [startX st1] eqn:Es.
    assert (H1 : bview st1 = bview st).
    { unfold pair_sync in Es. destruct (groupLanes _). injection Es as _ <-. reflexivity. }
    set (g := targetGroup (toLowerCase sec)).
    set (z := match g with AB => LANE_Z_A | CD => LANE_Z_C end).
    assert (H2 : bview (board_clear g (addBoard u sec startX z st1)) = bview st ++ [sec]).
    { unfold board_clear. destruct (groupLanes g). unfold with_cursors.
      change (bview (addBoard u sec startX z st1) = bview st ++ [sec]).
      rewrite bview_addBoard, H1. reflexivity. }
    assert (H3 : bview (place_ops u g sec ops (board_clear g (addBoard u sec startX z st1))) = bview st ++ [sec]).
    { unfold place_ops. rewrite <- H2.
      apply (fold_left_inv _ (fun a => bview (snd a) = bview (board_clear g (addBoard u sec startX z st1)))); [reflexivity|].
      intros [t s] item _ Hs. cbn [place_op snd] in *. rewrite <- Hs. unfold place_run.
      destruct (fold_left _ _ _) as [s' x'] eqn:E. unfold with_cursors.
      change (bview s' = bview s).
      change s' with (fst (s', x')). rewrite <- E.
      apply (fold_left_inv _ (fun a => bview (fst a) = bview s)); [reflexivity|].
      intros [s1 x1] k _ H1'. cbn -[addMachine bview]. rewrite bview_addMachine; exact H1'. }
    unfold end_fixtures. destruct (groupLanes g) as [l1 l2].
    unfold with_cursors, push, bview in *. cbn [layout].
    rewrite !filter_app, !map_app, H3. cbn. rewrite !app_nil_r. reflexivity.
Qed.

(** X4. A layout holds exactly one section board per section, in the order
    in which the sections first appear among the balanced operations; a
    section whose lower-cased name contains ["assembly"] gets a board named
    ["Assembly"], any other section a board named after the section. *)
Theorem X4_board_order u ops D W l bal :
  generateLayout u ops D W = Ok l -> calculateMachineRequirements ops D W = Ok bal ->
  map mp_section (filter is_board l) = map boardName (first_seen (map sectionKey bal)).
Proof.
  intros Hg Hc. apply generateLayout_run in Hg as [st [Hr ->]].
  rewrite run_layout_first_seen, Hc in Hr. injection Hr as <-.
  change (map mp_section (filter is_board (layout ?s))) with (bview s).
  generalize (first_seen (map sectionKey bal)) as S.
  intros S. change (map boardName S) with (bview init_st ++ map boardName S).
  generalize init_st. induction S as [|s S IH]; intros st.
  - cbn. rewrite app_nil_r. reflexivity.
  - cbn [fold_left map]. rewrite IH, bview_process_section, <- app_assoc. reflexivity.
Qed.

(** A sample with three sections: a parts section, an assembly section
    and an operation with no section. *)
Definition sample_ops3 : list Operation :=
  [snls_op; mkOperation "2" "Join side seam" "SNLS" 1 "Assembly";
   mkOperation "3" "Label" "SNLS" 1 ""].

Definition sample_layout3 : list MachinePosition :=
  match generateLayout u0 sample_ops3 1%Q 1%Q with Ok l => l | Error _ => nil end.

Definition sample_bal3 : list BalancedOp :=
  match calculateMachineRequirements sample_ops3 1%Q 1%Q with Ok b => b | Error _ => nil end.

Lemma in_machines e l : In e (machines l) -> In e l /\ is_machine e = true.
Proof. apply filter_In. Qed.

Lemma X1_machine_count_witness :
  generateLayout u0 sample_ops3 1%Q 1%Q = Ok sample_layout3 /\
  calculateMachineRequirements sample_ops3 1%Q 1%Q = Ok sample_bal3 /\
  List.length (machines sample_layout3) = list_sum (map count sample_bal3).
Proof.
  assert (H : generateLayout u0 sample_ops3 1%Q 1%Q = Ok sample_layout3) by (vm_compute; reflexivity).
  assert (Hc : calculateMachineRequirements sample_ops3 1%Q 1%Q = Ok sample_bal3) by (vm_compute; reflexivity).
  split; [exact H|]. split; [exact Hc|].
  exact (X1_machine_count u0 _ _ _ _ _ H Hc).
Defined.

Lemma X2_machine_geometry_witness :
  generateLayout u0 sample_ops3 1%Q 1%Q = Ok sample_layout3 /\
  exists e, nth_error sample_layout3 1 = Some e /\ is_machine e = true /\ position_z e = lane_z (lane e).
Proof.
  assert (H : generateLayout u0 sample_ops3 1%Q 1%Q = Ok sample_layout3) by (vm_compute; reflexivity).
  split; [exact H|].
  assert (Hm : option_map is_machine (nth_error sample_layout3 1) = Some true) by (vm_compute; reflexivity).
  destruct (nth_error sample_layout3 1) as [e|] eqn:He; [|discriminate].
  injection Hm as Hm.
  exists e. split; [reflexivity|]. split; [exact Hm|].
  exact (proj1 (proj2 (X2_machine_geometry u0 _ _ _ _ e H (nth_error_In _ _ He) Hm))).
Defined.

Lemma X3_machine_section_label_witness :
  generateLayout u0 sample_ops3 1%Q 1%Q = Ok sample_layout3 /\
  exists e, nth_error (machines sample_layout3) 2 = Some e /\ section (mp_operation e) = "" /\
            mp_section e = "Unknown".
Proof.
  assert (H : generateLayout u0 sample_ops3 1%Q 1%Q = Ok sample_layout3) by (vm_compute; reflexivity).
  split; [exact H|].
  assert (Hs : option_map (fun e => section (mp_operation e)) (nth_error (machines sample_layout3) 2) = Some "")
    by (vm_compute; reflexivity).
  destruct (nth_error (machines sample_layout3) 2) as [e|] eqn:He; [|discriminate].
  injection Hs as Hs.
  assert (Hin : In e sample_layout3 /\ is_machine e = true).
  { apply nth_error_In in He. exact (in_machines e sample_layout3 He). }
  exists e. split; [reflexivity|]. split; [exact Hs|].
  rewrite (X3_machine_section_label u0 _ _ _ _ e H (proj1 Hin) (proj2 Hin)), Hs. reflexivity.
Defined.

Lemma X4_board_order_witness :
  generateLayout u0 sample_ops3 1%Q 1%Q = Ok sample_layout3 /\
  calculateMachineRequirements sample_ops3 1%Q 1%Q = Ok sample_bal3 /\
  map mp_section (filter is_board sample_layout3) = ["Cuff"; "Assembly"; "Unknown"].
Proof.
  assert (H : generateLayout u0 sample_ops3 1%Q 1%Q = Ok sample_layout3) by (vm_compute; reflexivity).
  assert (Hc : calculateMachineRequirements sample_ops3 1%Q 1%Q = Ok sample_bal3) by (vm_compute; reflexivity).
  split; [exact H|]. split; [exact Hc|].
  rewrite (X4_board_order u0 _ _ _ _ _ H Hc). vm_compute. reflexivity.
Defined.

(* ------------------------------------------------------------------ *)
(** ** The OB sheet parser (src/unnamed/part_001)

    Strings are ASCII. On ASCII the JavaScript class [\s] and the
    characters [trim] removes are tab, line feed, vertical tab, form feed,
    carriage return and space. A spreadsheet cell is a string or a number;
    [String(n)] of a number, [isNaN(Number(s))] and [parseFloat] are the
    engine's, and are parameters of the section. *)

Definition is_js_space (c : ascii) : bool :=
  let n := nat_of_ascii c in
  ((9 <=? n)%nat && (n <=? 13)%nat) || (n =? 32)%nat.

(** The characters of [/[\s_\-\.\/]/g]. *)
Definition is_sep (c : ascii) : bool :=
  is_js_space c || Ascii.eqb c "_" || Ascii.eqb c "-" || Ascii.eqb c "." || Ascii.eqb c "/".

(** [s.replace(/[\s_\-\.\/]/g, '')] *)
Fixpoint strip_seps (s : string) : string :=
  match s with
  | EmptyString => EmptyString
  | String c r => if is_sep c then strip_seps r else String c (strip_seps r)
  end.

Fixpoint trim_start (s : string) : string :=
  match s with
  | EmptyString => EmptyString
  | String c r => if is_js_space c then trim_start r else s
  end.

Fixpoint trim_end (s : string) : string :=
  match s with
  | EmptyString => EmptyString
  | String c r =>
      let r' := trim_end r in
      if is_js_space c && String.eqb r' "" then EmptyString else String c r'
  end.

(** [s.trim()] *)
Definition trim (s : string) : string := trim_end (trim_start s).

(** [normalizeString] (lines 20-27). *)
Definition normalizeString (str : string) : string :=
  if String.eqb str "" then "" else trim (strip_seps (toLowerCase str)).

Inductive Field := F_op_no | F_op_name | F_machine_type | F_smv | F_section.

(** [COLUMN_ALIASES] (lines 8-14). *)
Definition COLUMN_ALIASES (f : Field) : list string :=
  match f with
  | F_op_no => ["op_no"; "operation_no"; "op no"; "operation no"; "opno"; "sl #"; "sl#"; "sl no";
                "sno"; "s.no"; "s no"; "sr"; "sr."; "sr no"; "serial"]
  | F_op_name => ["op_name"; "operation_name"; "op name"; "operation name"; "opname"; "description";
                  "operation description"; "op desc"; "operation"; "process"]
  | F_machine_type => ["machine_type"; "machine type"; "machinetype"; "machine"; "mc type"; "mc";
                       "m/c"; "m/c type"; "equipment"]
  | F_smv => ["smv"; "sam"; "standard_minute"; "time"; "std min"; "standard minute";
              "standard time"; "cycle time"]
  | F_section => ["section"; "sect"; "department"; "dept"; "area"; "zone"]
  end.

Definition alias_match (aliases : list string) (normalized : string) : bool :=
  existsb (fun alias => includes normalized alias || includes alias normalized) aliases.

Fixpoint find_column_from (aliases : list string) (i : Z) (headers : list string) : Z :=
  match headers with
  | [] => -1
  | h :: rest =>
      if alias_match aliases (normalizeString h) then i
      else find_column_from aliases (i + 1) rest
  end.

(** [findColumnIndex] (lines 32-43). *)
Definition findColumnIndex (headers : list string) (field : Field) : Z :=
  find_column_from (map normalizeString (COLUMN_ALIASES field)) 0 headers.

Inductive Cell := CStr (s : string) | CNum (q : Q).

(** [!cell]: the empty string and the number 0 are falsy. *)
Definition cell_falsy (c : Cell) : bool :=
  match c with CStr s => String.eqb s "" | CNum q => Qeq_bool q 0 end.

Inductive ParseResult := POk (ops : list Operation) | PErr (message : string).

(** [row[i]], [undefined] when [i] is out of range. *)
Definition cell_at (row : list Cell) (i : Z) : option Cell :=
  if i <? 0 then None else nth_error row (Z.to_nat i).

(** [str.replace(/[^\d.]/g, '')] *)
Fixpoint keep_digits_dots (s : string) : string :=
  match s with
  | EmptyString => EmptyString
  | String c r =>
      let n := nat_of_ascii c in
      if ((48 <=? n)%nat && (n <=? 57)%nat) || Ascii.eqb c "." then String c (keep_digits_dots r)
      else keep_digits_dots r
  end.

Section Parser.

(** [String(n)] for a number cell. *)
Variable numberToString : Q -> string.
(** [isNaN(Number(s))] *)
Variable isNaN_Number : string -> bool.
(** [parseFloat(s)], [None] for [NaN]. *)
Variable parseFloat : string -> option Q.

(** [String(cell)] *)
Definition cell_string (c : Cell) : string :=
  match c with CStr s => s | CNum q => numberToString q end.

(** [String(x || '')] for [x = row[i]]. *)
Definition cell_or_empty (c : option Cell) : string :=
  match c with
  | Some c => if cell_falsy c then "" else cell_string c
  | None => ""
  end.

Definition allAliases : list string :=
  map normalizeString (List.concat (map COLUMN_ALIASES [F_op_no; F_op_name; F_machine_type; F_smv; F_section])).

Fixpoint header_scan (matchCount : nat) (row : list Cell) : bool :=
  match row with
  | [] => false
  | cell :: rest =>
      let normalized := normalizeString (cell_or_empty (Some cell)) in
      let matchCount' := if alias_match allAliases normalized then S matchCount else matchCount in
      if (2 <=? matchCount')%nat then true else header_scan matchCount' rest
  end.

(** [isHeaderRow] (lines 48-62). *)
Definition isHeaderRow (row : list Cell) : bool := header_scan 0 row.

(** [isSectionHeader] (lines 67-82). *)
Definition isSectionHeader (row : list Cell) : option string :=
  let firstCell := trim (cell_or_empty (cell_at row 0)) in
  let secondCell := trim (cell_or_empty (cell_at row 1)) in
  if negb (String.eqb firstCell "") && String.eqb secondCell "" && isNaN_Number firstCell then
    let emptyCount := List.length (filter (fun cell => cell_falsy cell || String.eqb (trim (cell_string cell)) "") row) in
    if Z.of_nat (List.length row) - 2 <=? Z.of_nat emptyCount then Some firstCell else None
  else None.

(** [isOperationRow] (lines 87-103). *)
Definition isOperationRow (row : list Cell) (opNoIndex machineIndex : Z) : bool :=
  let opNo := cell_at row opNoIndex in
  let opNo_missing :=
    match opNo with
    | None => true                       (* [!undefined && undefined !== 0] *)
    | Some (CStr s) => String.eqb s ""
    | Some (CNum _) => false             (* a number is [0] or truthy *)
    end in
  if opNo_missing then false else
  let firstCell := toLowerCase (cell_or_empty (cell_at row 0)) in
  if includes firstCell "total" || includes firstCell "sub total" || includes firstCell "subtotal"
  then false else
  match cell_at row machineIndex with
  | None => false
  | Some machine =>
      if cell_falsy machine || String.eqb (trim (cell_string machine)) "" then false else true
  end.

(** Lines 188-214: the operation read from an operation row. *)
Definition row_operation (row : list Cell) (opNoIndex opNameIndex machineIndex smvIndex sectionIndex : Z)
    (currentSection : string) : Operation :=
  let opNo := trim (cell_or_empty (cell_at row opNoIndex)) in
  let opName := if 0 <=? opNameIndex then trim (cell_or_empty (cell_at row opNameIndex)) else "" in
  let machineType := trim (cell_or_empty (cell_at row machineIndex)) in
  let smv :=
    if 0 <=? smvIndex then
      match cell_at row smvIndex with
      | Some (CNum q) => q
      | Some (CStr s) => match parseFloat (keep_digits_dots s) with Some p => p | None => 0%Q end
      | None => 0%Q
      end
    else 0%Q in
  let section :=
    if 0 <=? sectionIndex then
      trim (match cell_at row sectionIndex with
            | Some c => if cell_falsy c then currentSection else cell_string c
            | None => currentSection
            end)
    else currentSection in
  {| op_no := opNo; op_name := opName; machine_type := machineType; smv := smv; section := section |}.

(** Lines 172-215: the loop over the rows below the header row. *)
Fixpoint parse_rows (opNoIndex opNameIndex machineIndex smvIndex sectionIndex : Z)
    (currentSection : string) (rows : list (list Cell)) : list Operation :=
  match rows with
  | [] => []
  | row :: rest =>
      match isSectionHeader row with
      | Some h => parse_rows opNoIndex opNameIndex machineIndex smvIndex sectionIndex h rest
      | None =>
          if isOperationRow row opNoIndex machineIndex
          then row_operation row opNoIndex opNameIndex machineIndex smvIndex sectionIndex currentSection
               :: parse_rows opNoIndex opNameIndex machineIndex smvIndex sectionIndex currentSection rest
          else parse_rows opNoIndex opNameIndex machineIndex smvIndex sectionIndex currentSection rest
      end
  end.

(** Lines 137-144: the first header row among the first 20 rows. *)
Fixpoint find_header (i : nat) (rows : list (list Cell)) : option (nat * list Cell) :=
  match rows with
  | [] => None
  | row :: rest => if isHeaderRow row then Some (i, row) else find_header (S i) rest
  end.

(** The body of [reader.onload] (lines 128-222), from the rows
    [XLSX.utils.sheet_to_json] returns. *)
Definition parseOBExcel (rawData : list (list Cell)) : ParseResult :=
  match rawData with
  | [] => PErr "Empty spreadsheet"
  | _ =>
    match find_header 0 (firstn 20 rawData) with
    | None => PErr "Could not find header row. Please ensure the Excel file has column headers."
    | Some (headerRowIndex, row) =>
        let headers := map (fun cell => cell_or_empty (Some cell)) row in
        let opNoIndex := findColumnIndex headers F_op_no in
        let opNameIndex := findColumnIndex headers F_op_name in
        let machineIndex := findColumnIndex headers F_machine_type in
        let smvIndex := findColumnIndex headers F_smv in
        let sectionIndex := findColumnIndex headers F_section in
        if opNoIndex =? -1 then PErr "Could not find operation number column" else
        if machineIndex =? -1 then PErr "Could not find machine type column" else
        match parse_rows opNoIndex opNameIndex machineIndex smvIndex sectionIndex "General"
                (skipn (S headerRowIndex) rawData) with
        | [] => PErr "No valid operations found in the Excel file"
        | operations => POk operations
        end
    end
  end.

End Parser.

(** [getMachineCategory] (lines 239-266). *)
Definition getMachineCategory (machineType : string) : string :=
  let normalized := normalizeString machineType in
  if includes normalized "snls" || includes normalized "singleneedle" || includes normalized "lockstitch"
  then "snls" else
  if includes normalized "snec" || includes normalized "overlock" || includes normalized "edge"
  then "snec" else
  if includes normalized "iron" || includes normalized "press" || includes normalized "fusing"
  then "iron" else
  if includes normalized "button" || includes normalized "bhole" || includes normalized "buttonhole"
  then "button" else
  if includes normalized "bartack" || includes normalized "bar tack"
  then "bartack" else
  if includes normalized "helper" || includes normalized "table"
  then "helper" else
  if includes normalized "special" || includes normalized "contour" || includes normalized "turning" ||
     includes normalized "pointing" || includes normalized "notch" || includes normalized "wrapping"
  then "special" else "default".

Lemma lower_ascii_idem c : lower_ascii (lower_ascii c) = lower_ascii c.
Proof. destruct c as [[] [] [] [] [] [] [] []]; reflexivity. Qed.

Lemma is_sep_lower c : is_sep (lower_ascii c) = is_sep c.
Proof. destruct c as [[] [] [] [] [] [] [] []]; reflexivity. Qed.

Lemma toLowerCase_idem s : toLowerCase (toLowerCase s) = toLowerCase s.
Proof. induction s as [|c s IH]; cbn; [reflexivity|]. now rewrite lower_ascii_idem, IH. Qed.

Lemma toLowerCase_strip s : toLowerCase (strip_seps s) = strip_seps (toLowerCase s).
Proof.
  induction s as [|c s IH]; cbn; [reflexivity|].
  rewrite is_sep_lower. destruct (is_sep c); cbn; now rewrite IH.
Qed.

Lemma strip_seps_idem s : strip_seps (strip_seps s) = strip_seps s.
Proof.
  induction s as [|c s IH]; cbn; [reflexivity|].
  destruct (is_sep c) eqn:E; [exact IH|]. cbn. now rewrite E, IH.
Qed.

(** Whether a string has a character with property [p]. *)
Fixpoint any_char (p : ascii -> bool) (s : string) : bool :=
  match s with
  | EmptyString => false
  | String c r => p c || any_char p r
  end.

Lemma any_char_append p s1 s2 : any_char p (s1 ++ s2)%string = any_char p s1 || any_char p s2.
Proof. induction s1 as [|c s1 IH]; cbn; [reflexivity|]. now rewrite IH, orb_assoc. Qed.

Lemma strip_seps_no_sep s : any_char is_sep (strip_seps s) = false.
Proof.
  induction s as [|c s IH]; cbn; [reflexivity|].
  destruct (is_sep c) eqn:E; cbn; [exact IH|]. now rewrite E, IH.
Qed.

Lemma space_is_sep c : is_js_space c = true -> is_sep c = true.
Proof. unfold is_sep. intros H. now rewrite H. Qed.

Lemma no_sep_no_space s : any_char is_sep s = false -> any_char is_js_space s = false.
Proof.
  induction s as [|c s IH]; cbn; [reflexivity|].
  intros H. apply orb_false_iff in H as [H1 H2].
  destruct (is_js_space c) eqn:E; [apply space_is_sep in E; congruence|]. cbn. auto.
Qed.

Lemma trim_no_space s : any_char is_js_space s = false -> trim s = s.
Proof.
  intros H. unfold trim.
  assert (Hs : trim_start s = s) by (destruct s as [|c r]; cbn in *; [reflexivity|];
                                      apply orb_false_iff in H as [H _]; now rewrite H).
  rewrite Hs. clear Hs. induction s as [|c s IH]; cbn in *; [reflexivity|].
  apply orb_false_iff in H as [H1 H2]. rewrite IH by exact H2. now rewrite H1.
Qed.

Lemma normalizeString_strip s : normalizeString s = strip_seps (toLowerCase s).
Proof.
  unfold normalizeString. destruct (String.eqb_spec s "") as [->|_]; [reflexivity|].
  apply trim_no_space, no_sep_no_space, strip_seps_no_sep.
Qed.

Lemma normalizeString_no_sep s : any_char is_sep (normalizeString s) = false.
Proof. rewrite normalizeString_strip. apply strip_seps_no_sep. Qed.

Lemma normalizeString_idem s : normalizeString (normalizeString s) = normalizeString s.
Proof.
  rewrite !normalizeString_strip, toLowerCase_strip, toLowerCase_idem, strip_seps_idem. reflexivity.
Qed.

Lemma prefix_app_l sub q : prefix sub (sub ++ q)%string = true.
Proof.
  induction sub as [|c sub IH]; cbn; [destruct q; reflexivity|].
  destruct (ascii_dec c c); [exact IH|contradiction].
Qed.

Lemma prefix_split sub s : prefix sub s = true -> exists q, s = (sub ++ q)%string.
Proof.
  revert s. induction sub as [|c sub IH]; intros s H; [exists s; reflexivity|].
  destruct s as [|c' s]; cbn in H; [discriminate|].
  destruct (ascii_dec c c') as [<-|]; [|discriminate].
  destruct (IH s H) as [q ->]. exists q. reflexivity.
Qed.

Lemma includes_split s sub : includes s sub = true -> exists p q, s = (p ++ sub ++ q)%string.
Proof.
  induction s as [|c s IH]; intros H.
  - destruct sub; [exists "", ""; reflexivity|discriminate].
  - change (prefix sub (String c s) || includes s sub = true) in H.
    apply orb_true_iff in H as [H|H].
    + apply prefix_split in H as [q Hq]. exists "", q. exact Hq.
    + destruct (IH H) as [p [q ->]]. exists (String c p), q. reflexivity.
Qed.

Lemma includes_prefix s sub : prefix sub s = true -> includes s sub = true.
Proof. intros H. destruct s as [|c s]; [exact (orb_true_intro _ _ (or_introl H))|].
  change (prefix sub (String c s) || includes s sub = true). now rewrite H. Qed.

Lemma includes_app p sub q : includes (p ++ sub ++ q)%string sub = true.
Proof.
  induction p as [|c p IH].
  - apply includes_prefix. exact (prefix_app_l sub q).
  - change (prefix sub (String c (p ++ sub ++ q)) || includes (p ++ sub ++ q) sub = true).
    rewrite IH. apply orb_true_r.
Qed.

Lemma strip_seps_append s1 s2 : strip_seps (s1 ++ s2)%string = (strip_seps s1 ++ strip_seps s2)%string.
Proof. induction s1 as [|c s1 IH]; cbn; [reflexivity|]. destruct (is_sep c); cbn; now rewrite IH. Qed.

Lemma trim_end_idem s : trim_end (trim_end s) = trim_end s.
Proof.
  induction s as [|c r IH]; [reflexivity|]. cbn [trim_end].
  destruct (is_js_space c && String.eqb (trim_end r) "") eqn:E; [reflexivity|].
  cbn [trim_end]. now rewrite IH, E.
Qed.

Lemma trim_start_length s : (String.length (trim_start s) <= String.length s)%nat.
Proof.
  induction s as [|c r IH]; cbn; [lia|]. destruct (is_js_space c); cbn; lia.
Qed.

Lemma trim_idem s : trim (trim s) = trim s.
Proof.
  unfold trim. remember (trim_start s) as t eqn:Ht.
  assert (Hstart : trim_start t = t).
  { subst t. induction s as [|c r IH]; [reflexivity|]. cbn [trim_start].
    destruct (is_js_space c) eqn:E; [exact IH|]. cbn. now rewrite E. }
  assert (Hend : trim_start (trim_end t) = trim_end t).
  { destruct t as [|c r]; [reflexivity|]. cbn [trim_start] in Hstart.
    destruct (is_js_space c) eqn:E.
    - exfalso. assert (H := f_equal String.length Hstart).
      pose proof (trim_start_length r). cbn in H. lia.
    - cbn [trim_end]. rewrite E. cbn. now rewrite E. }
  rewrite Hend. apply trim_end_idem.
Qed.

(** X5. [normalizeString] is idempotent, so [getMachineCategory] gives a
    machine type and its normalised form the same category. *)
Theorem X5_normalize_idempotent s :
  normalizeString (normalizeString s) = normalizeString s /\
  getMachineCategory (normalizeString s) = getMachineCategory s.
Proof.
  split; [apply normalizeString_idem|].
  unfold getMachineCategory. now rewrite normalizeString_idem.
Qed.

(** X6. The test [normalized.includes('bar tack')] of [getMachineCategory]
    never succeeds: [normalizeString] has removed every space. *)
Theorem X6_bar_tack_test_dead s : includes (normalizeString s) "bar tack" = false.
Proof.
  destruct (includes (normalizeString s) "bar tack") eqn:E; [|reflexivity].
  apply includes_split in E as [p [q Hpq]].
  pose proof (normalizeString_no_sep s) as H. rewrite Hpq, !any_char_append in H.
  cbn in H. rewrite orb_true_r in H. discriminate.
Qed.

(** X7. A machine type spelt with a space, such as ["Bar Tack"], still
    reaches the bartack category (unless an earlier category matches):
    its category is one of ["snls"], ["snec"], ["iron"], ["button"],
    ["bartack"]. *)
Theorem X7_spaced_bartack s :
  includes (toLowerCase s) "bar tack" = true ->
  In (getMachineCategory s) ["snls"; "snec"; "iron"; "button"; "bartack"].
Proof.
  intros H. apply includes_split in H as [p [q Hpq]].
  assert (Hb : includes (normalizeString s) "bartack" = true).
  { rewrite normalizeString_strip, Hpq, !strip_seps_append. apply includes_app. }
  unfold getMachineCategory. cbv zeta. rewrite Hb. cbn [orb].
  repeat match goal with |- context [if ?b then _ else _] => destruct b end; cbn; tauto.
Qed.

Lemma alias_match_empty aliases : aliases <> [] -> alias_match aliases "" = true.
Proof.
  destruct aliases as [|a rest]; [congruence|]. intros _. cbn.
  assert (H : includes a "" = true) by (apply includes_prefix; destruct a; reflexivity).
  now rewrite H, orb_true_r.
Qed.

Lemma find_column_from_blank aliases i headers j h :
  aliases <> [] -> nth_error headers j = Some h -> normalizeString h = "" ->
  i <= find_column_from aliases i headers <= i + Z.of_nat j.
Proof.
  intros Ha. revert i j. induction headers as [|h' rest IH]; intros i j Hj Hh.
  - destruct j; discriminate.
  - cbn [find_column_from]. destruct (alias_match aliases (normalizeString h')) eqn:E; [lia|].
    destruct j as [|j]; cbn in Hj.
    + injection Hj as ->. rewrite Hh, alias_match_empty in E by exact Ha. discriminate.
    + specialize (IH (i + 1) j Hj Hh). lia.
Qed.

(** X8. A header cell that normalises to the empty string (a blank cell,
    or one made only of spaces, underscores, hyphens, dots and slashes)
    matches every field, because every alias includes the empty string:
    [findColumnIndex] then returns a column at or before it, never -1. *)
Theorem X8_blank_header_matches headers field j h :
  nth_error headers j = Some h -> normalizeString h = "" ->
  0 <= findColumnIndex headers field <= Z.of_nat j.
Proof.
  intros Hj Hh. unfold findColumnIndex.
  pose proof (find_column_from_blank (map normalizeString (COLUMN_ALIASES field)) 0 headers j h) as H.
  destruct field; (lapply H; [intros H'; specialize (H' Hj Hh); lia|discriminate]).
Qed.

Section HeaderRow.

Variable numberToString : Q -> string.

Definition cell_matches (c : Cell) : bool :=
  alias_match allAliases (normalizeString (cell_or_empty numberToString (Some c))).

Lemma header_scan_one m row c :
  (1 <= m)%nat -> In c row -> cell_matches c = true -> header_scan numberToString m row = true.
Proof.
  revert m. induction row as [|c' rest IH]; intros m Hm Hin Hc; [contradiction|].
  cbn [header_scan]. fold (cell_matches c').
  destruct (cell_matches c') eqn:E.
  - replace (2 <=? S m)%nat with true by (symmetry; apply Nat.leb_le; lia). reflexivity.
  - destruct Hin as [<-|Hin]; [congruence|].
    destruct (2 <=? m)%nat; [reflexivity|]. apply IH; assumption.
Qed.

Lemma header_scan_two m row i j c1 c2 :
  (i < j)%nat -> nth_error row i = Some c1 -> nth_error row j = Some c2 ->
  cell_matches c1 = true -> cell_matches c2 = true -> header_scan numberToString m row = true.
Proof.
  revert m i j. induction row as [|c rest IH]; intros m i j Hij Hi Hj H1 H2; [destruct i; discriminate|].
  cbn [header_scan]. fold (cell_matches c).
  destruct i as [|i].
  - injection Hi as ->. rewrite H1.
    destruct (2 <=? S m)%nat; [reflexivity|].
    destruct j as [|j]; [lia|]. apply header_scan_one with c2; [lia|eapply nth_error_In; exact Hj|exact H2].
  - destruct j as [|j]; [lia|].
    destruct (2 <=? (if cell_matches c then S m else m))%nat; [reflexivity|].
    apply IH with (i := i) (j := j); [lia|exact Hi|exact Hj|exact H1|exact H2].
Qed.

(** X9. [isHeaderRow] accepts any row with two cells that normalise to the
    empty string, such as two blank cells ([''] or [0]): the empty string
    is included in every alias. *)
Theorem X9_two_blank_cells_header row i j c1 c2 :
  (i < j)%nat -> nth_error row i = Some c1 -> nth_error row j = Some c2 ->
  normalizeString (cell_or_empty numberToString (Some c1)) = "" ->
  normalizeString (cell_or_empty numberToString (Some c2)) = "" ->
  isHeaderRow numberToString row = true.
Proof.
  intros Hij Hi Hj H1 H2. unfold isHeaderRow.
  apply header_scan_two with i j c1 c2; try assumption;
    unfold cell_matches; [rewrite H1|rewrite H2]; apply alias_match_empty; discriminate.
Qed.

End HeaderRow.

Section ParseResults.

Variable numberToString : Q -> string.
Variable isNaN_Number : string -> bool.
Variable parseFloat : string -> option Q.

(** The fields the parser reads from text are trimmed. *)
Definition op_trimmed (op : Operation) : Prop :=
  machine_type op <> "" /\ trim (machine_type op) = machine_type op /\
  trim (op_no op) = op_no op /\ trim (op_name op) = op_name op /\ trim (section op) = section op.

Lemma isSectionHeader_trimmed row h :
  isSectionHeader numberToString isNaN_Number row = Some h -> trim h = h.
Proof.
  unfold isSectionHeader. destruct (_ && _ && _); [|discriminate].
  destruct (_ <=? _); [|discriminate]. intros H; injection H as <-. apply trim_idem.
Qed.

Lemma row_operation_trimmed row oi ni mi smi si cur :
  trim cur = cur -> isOperationRow numberToString row oi mi = true ->
  op_trimmed (row_operation numberToString parseFloat row oi ni mi smi si cur).
Proof.
  intros Hcur Hop. unfold op_trimmed, row_operation; cbn [machine_type op_no op_name section].
  unfold isOperationRow in Hop.
  destruct (match cell_at row oi with None => true | Some (CStr s) => String.eqb s "" | Some (CNum _) => false end);
    [discriminate|].
  destruct (_ || _ || _); [discriminate|].
  destruct (cell_at row mi) as [machine|]; [|discriminate].
  destruct (cell_falsy machine) eqn:Ef; [discriminate|].
  destruct (String.eqb_spec (trim (cell_string numberToString machine)) "") as [|Hne]; [discriminate|].
  cbn [cell_or_empty]. rewrite Ef.
  split; [exact Hne|]. split; [apply trim_idem|]. split; [apply trim_idem|].
  split; [destruct (0 <=? ni); [apply trim_idem|reflexivity]|].
  destruct (0 <=? si); [apply trim_idem|exact Hcur].
Qed.

Lemma parse_rows_trimmed oi ni mi smi si cur rows :
  trim cur = cur ->
  Forall op_trimmed (parse_rows numberToString isNaN_Number parseFloat oi ni mi smi si cur rows).
Proof.
  revert cur. induction rows as [|row rest IH]; intros cur Hcur; cbn [parse_rows]; [constructor|].
  destruct (isSectionHeader numberToString isNaN_Number row) as [h|] eqn:Eh.
  - apply IH. exact (isSectionHeader_trimmed row h Eh).
  - destruct (isOperationRow numberToString row oi mi) eqn:Eo; [|apply IH; exact Hcur].
    constructor; [apply row_operation_trimmed; assumption|apply IH; exact Hcur].
Qed.

(** X10. When [parseOBExcel] succeeds it returns at least one operation,
    and every operation has a non-empty machine type; its operation
    number, name, machine type and section are trimmed (the section is
    ['General'], a section header's first cell or a section cell, all
    trimmed). *)
Theorem X10_parse_ok_shape rawData ops :
  parseOBExcel numberToString isNaN_Number parseFloat rawData = POk ops ->
  ops <> [] /\ Forall op_trimmed ops.
Proof.
  unfold parseOBExcel. destruct rawData as [|r0 rest]; [discriminate|].
  destruct (find_header numberToString 0 (firstn 20 (r0 :: rest))) as [[hi row]|]; [|discriminate].
  cbv zeta.
  destruct (_ =? -1); [discriminate|]. destruct (_ =? -1); [discriminate|].
  match goal with |- context [match parse_rows ?a ?b ?c ?d ?e ?f ?g ?h ?i ?j with _ => _ end] =>
    pose proof (parse_rows_trimmed d e f g h i j (eq_refl : trim "General" = "General")) as HF;
    destruct (parse_rows a b c d e f g h i j) as [|o os] end; [discriminate|].
  intros H; injection H as <-. split; [discriminate|exact HF].
Qed.






End ParseResults.

(** Sample engine functions for running the parser on concrete sheets:
    integers print in decimal, and a string is [NaN] as a number when it
    does not start with a digit. *)
Definition sample_numberToString (q : Q) : string :=
  if Qeq_bool q 1 then "1" else if Qeq_bool q 2 then "2" else "0.5".

Definition sample_isNaN_Number (s : string) : bool :=
  match s with
  | EmptyString => false
  | String c _ => negb ((48 <=? nat_of_ascii c)%nat && (nat_of_ascii c <=? 57)%nat)
  end.

Definition sample_parseFloat (s : string) : option Q :=
  if String.eqb s "" then None else Some 1%Q.

Definition sample_sheet : list (list Cell) :=
  [[CStr "Op No"; CStr "Operation"; CStr "Machine Type"; CStr "SMV"];
   [CStr "Collar"; CStr ""; CStr ""; CStr ""];
   [CNum 1; CStr " Attach collar "; CStr "SNLS "; CNum (1#2)];
   [CStr "Total"; CStr ""; CStr ""; CNum (1#2)]].

Lemma X7_spaced_bartack_witness :
  includes (toLowerCase "Bar Tack") "bar tack" = true /\
  In (getMachineCategory "Bar Tack") ["snls"; "snec"; "iron"; "button"; "bartack"].
Proof.
  assert (H : includes (toLowerCase "Bar Tack") "bar tack" = true) by (vm_compute; reflexivity).
  split; [exact H|]. exact (X7_spaced_bartack "Bar Tack" H).
Defined.

Lemma X8_blank_header_matches_witness :
  nth_error ["Op No"; ""; "Machine"] 1 = Some "" /\ normalizeString "" = "" /\
  0 <= findColumnIndex ["Op No"; ""; "Machine"] F_machine_type <= 1.
Proof.
  split; [reflexivity|]. split; [reflexivity|].
  exact (X8_blank_header_matches ["Op No"; ""; "Machine"] F_machine_type 1 "" eq_refl eq_refl).
Defined.

Lemma X9_two_blank_cells_header_witness :
  isHeaderRow sample_numberToString [CStr "Line 6"; CStr ""; CNum 0] = true.
Proof.
  apply (X9_two_blank_cells_header sample_numberToString _ 1 2 (CStr "") (CNum 0));
    [lia|reflexivity|reflexivity|vm_compute; reflexivity|vm_compute; reflexivity].
Defined.

Definition sample_sheet_ops : list Operation :=
  match parseOBExcel sample_numberToString sample_isNaN_Number sample_parseFloat sample_sheet with
  | POk ops => ops | PErr _ => []
  end.

Lemma X10_parse_ok_shape_witness :
  parseOBExcel sample_numberToString sample_isNaN_Number sample_parseFloat sample_sheet = POk sample_sheet_ops /\
  sample_sheet_ops <> [] /\ Forall op_trimmed sample_sheet_ops.
Proof.
  assert (H : parseOBExcel sample_numberToString sample_isNaN_Number sample_parseFloat sample_sheet
              = POk sample_sheet_ops) by (vm_compute; reflexivity).
  split; [exact H|]. exact (X10_parse_ok_shape _ _ _ _ _ H).
Defined.



(* ------------------------------------------------------------------ *)
(** ** Model selection (src/src/components/3d/Machine3D.tsx)

    [MODEL_MAP] as the list of its entries in key order, which is the
    order [Object.keys] returns for these non-numeric keys. *)

Definition MODEL_MAP : list (string * string) :=
  [("snls", "last machine.glb"); ("dnls", "last machine.glb");
   ("snec", "3t ol.glb"); ("3t ol", "3t ol.glb");
   ("bartack", "bartack.finalglb.glb"); ("iron", "iron press.glb");
   ("inspection", "inspection machine final.glb");
   ("button", "buttonmaking mc.glb"); ("buttonhole", "buttonhole.glb");
   ("supermarket", "supermarket.glb"); ("trolley", "helpers table.glb");
   ("helper", "helpers table.glb"); ("fusing", "fusing mc.glb");
   ("turning", "turning mc.glb"); ("contour", "contour machine.glb");
   ("blocking", "blocking mc.glb"); ("default", "last machine.glb")].

(** [getModelUrl] (lines 43-52). *)
Definition getModelUrl (type : string) : string :=
  if String.eqb type "" then "/models/" ++ "last machine.glb" else
  let t := toLowerCase type in
  match find (fun kv => includes t (fst kv)) MODEL_MAP with
  | Some (_, file) => "/models/" ++ file
  | None => "/models/" ++ "last machine.glb"
  end.

Ltac step_if t :=
  match goal with
  | |- context [if includes t ?k then _ else _] => destruct (includes t k); [cbn; discriminate|]
  end.

(** X13. [getModelUrl] never selects the buttonhole model: a type that
    includes ["buttonhole"] also includes the earlier key ["button"]. *)
Theorem X13_no_buttonhole_model type : getModelUrl type <> "/models/buttonhole.glb".
Proof.
  unfold getModelUrl. destruct (String.eqb type ""); [discriminate|].
  set (t := toLowerCase type). unfold MODEL_MAP. cbn [find fst].
  destruct (includes t "buttonhole") eqn:Eh.
  - assert (Eb : includes t "button" = true).
    { apply includes_split in Eh as [p [q Hpq]]. rewrite Hpq.
      change ("buttonhole" ++ q)%string with ("button" ++ ("hole" ++ q))%string. apply includes_app. }
    rewrite Eb. repeat step_if t. cbn. discriminate.
  - repeat step_if t. cbn. discriminate.
Qed.

(* ------------------------------------------------------------------ *)
(** ** Footprints (src/src/utils/dimensions.ts), in metres as [Q] *)

Definition FT_TO_M : Q := 3048 # 10000.

Record Dimension := mkDimension { width : Q; dlength : Q }.

Definition dim_ft (l w : Q) : Dimension := {| width := w * FT_TO_M; dlength := l * FT_TO_M |}.

(** [MACHINE_DIMENSIONS] (lines 15-38), one definition per key. *)
Definition MD_SNLS := dim_ft 4 (5#2).
Definition MD_DNLS := dim_ft 4 (5#2).
Definition MD_Overlock := dim_ft 4 (5#2).
Definition MD_SNEC := dim_ft 4 (5#2).
Definition MD_Bartack := dim_ft 4 (5#2).
Definition MD_Button_Hole := dim_ft 4 (5#2).
Definition MD_Button_Stitch := dim_ft 4 (5#2).
Definition MD_Notch_mc := dim_ft 4 (5#2).
Definition MD_FOA := dim_ft (9#2) (5#2).
Definition MD_Turning_Machine := dim_ft 4 3.
Definition MD_Pointing_Machine := dim_ft 4 3.
Definition MD_Contour_Machine := dim_ft (9#2) 3.
Definition MD_Iron_Press_Table := dim_ft 5 (7#2).
Definition MD_Inspection_Table := dim_ft 6 4.
Definition MD_DEFAULT : Dimension := {| width := 8#10; dlength := 12#10 |}.

(** [getMachineDimensions] (lines 66-86). *)
Definition getMachineDimensions (machineType : string) : Dimension :=
  let normType := toLowerCase machineType in
  if includes normType "snls" then MD_SNLS else
  if includes normType "dnls" then MD_DNLS else
  if includes normType "overlock" then MD_Overlock else
  if includes normType "snec" then MD_SNEC else
  if includes normType "bartack" then MD_Bartack else
  if includes normType "button hole" then MD_Button_Hole else
  if includes normType "button" then MD_Button_Stitch else
  if includes normType "notch" then MD_Notch_mc else
  if includes normType "foa" || includes normType "feed off" then MD_FOA else
  if includes normType "turning" then MD_Turning_Machine else
  if includes normType "pointing" then MD_Pointing_Machine else
  if includes normType "contour" then MD_Contour_Machine else
  if includes normType "iron" || includes normType "press" then MD_Iron_Press_Table else
  if includes normType "inspection" then MD_Inspection_Table else
  MD_DEFAULT.

(** [SECTION_DIMENSIONS] (lines 47-64): the two tables as association
    lists. *)
Definition SECTION_DIMENSIONS_DEFAULT : list (string * Dimension) :=
  [("cuff", {| width := (93009 # 10000) * FT_TO_M; dlength := (3434 # 100) * FT_TO_M |});
   ("sleeve", {| width := (93009 # 10000) * FT_TO_M; dlength := 25 * FT_TO_M |});
   ("back", {| width := (93009 # 10000) * FT_TO_M; dlength := (436927 # 10000) * FT_TO_M |});
   ("collar", {| width := (102098 # 10000) * FT_TO_M; dlength := 62 * FT_TO_M |});
   ("front", {| width := (102098 # 10000) * FT_TO_M; dlength := (438055 # 10000) * FT_TO_M |});
   ("assembly", {| width := (102098 # 10000) * FT_TO_M; dlength := (5603 # 100) * FT_TO_M |})].

Definition SECTION_DIMENSIONS_LINE6 : list (string * Dimension) :=
  [("cuff", {| width := (9025 # 1000) * FT_TO_M; dlength := (309498 # 10000) * FT_TO_M |});
   ("sleeve", {| width := (9025 # 1000) * FT_TO_M; dlength := (24551 # 1000) * FT_TO_M |});
   ("collar", {| width := 9 * FT_TO_M; dlength := (567096 # 10000) * FT_TO_M |})].

(** The properties every object literal inherits from [Object.prototype];
    [table[key]] finds them when the table has no such key of its own. *)
Definition OBJECT_PROTOTYPE_KEYS : list string :=
  ["constructor"; "__proto__"; "hasOwnProperty"; "isPrototypeOf"; "propertyIsEnumerable";
   "toString"; "valueOf"; "toLocaleString"; "__defineGetter__"; "__defineSetter__";
   "__lookupGetter__"; "__lookupSetter__"].

(** The value of [table[key]]: an own dimension, an inherited member
    (a function or [Object.prototype], truthy), or [undefined]. *)
Inductive JsLookup := JDim (d : Dimension) | JInherited (key : string) | JUndefined.

Fixpoint assoc (k : string) (t : list (string * Dimension)) : option Dimension :=
  match t with
  | [] => None
  | (k', d) :: rest => if String.eqb k k' then Some d else assoc k rest
  end.

Definition js_get (t : list (string * Dimension)) (k : string) : JsLookup :=
  match assoc k t with
  | Some d => JDim d
  | None => if existsb (String.eqb k) OBJECT_PROTOTYPE_KEYS then JInherited k else JUndefined
  end.

Definition upper_ascii (c : ascii) : ascii :=
  let n := nat_of_ascii c in
  if (97 <=? n)%nat && (n <=? 122)%nat then ascii_of_nat (n - 32) else c.

Fixpoint toUpperCase (s : string) : string :=
  match s with
  | EmptyString => EmptyString
  | String c s' => String (upper_ascii c) (toUpperCase s')
  end.

(** [getSectionDimensions] (lines 88-101); [JUndefined] stands for the
    returned [null]. *)
Definition getSectionDimensions (lineNo sectionName : string) : JsLookup :=
  let line6 := includes (toUpperCase lineNo) "LINE 6" in
  let secKey := toLowerCase sectionName in
  let dim := js_get (if line6 then SECTION_DIMENSIONS_LINE6 else SECTION_DIMENSIONS_DEFAULT) secKey in
  let dim := match dim with
             | JUndefined => if line6 then js_get SECTION_DIMENSIONS_DEFAULT secKey else dim
             | _ => dim
             end in
  dim.

(** X14. Every machine footprint is positive and longer than it is wide:
    [0 < width < length]. *)
Theorem X14_machine_footprint machineType :
  (0 < width (getMachineDimensions machineType))%Q /\
  (width (getMachineDimensions machineType) < dlength (getMachineDimensions machineType))%Q.
Proof.
  unfold getMachineDimensions.
  repeat match goal with |- context [if ?b then _ else _] => destruct b end;
    split; vm_compute; reflexivity.
Qed.

Lemma assoc_existsb t k :
  existsb (String.eqb k) (map fst t) = match assoc k t with Some _ => true | None => false end.
Proof.
  induction t as [|[k' d] rest IH]; [reflexivity|]. cbn [map fst existsb assoc].
  destruct (String.eqb k k'); [reflexivity|exact IH].
Qed.

Lemma assoc_existsb_none t k :
  (existsb (String.eqb k) (map fst t) = false) <-> assoc k t = None.
Proof. rewrite assoc_existsb. destruct (assoc k t); split; congruence. Qed.

Lemma line6_keys_default k :
  assoc k SECTION_DIMENSIONS_LINE6 <> None -> assoc k SECTION_DIMENSIONS_DEFAULT <> None.
Proof.
  intros H HD. apply H. apply assoc_existsb_none. apply assoc_existsb_none in HD.
  cbn [SECTION_DIMENSIONS_LINE6 SECTION_DIMENSIONS_DEFAULT map fst existsb] in *.
  destruct (String.eqb k "cuff"), (String.eqb k "sleeve"), (String.eqb k "back"),
    (String.eqb k "collar"), (String.eqb k "front"), (String.eqb k "assembly"); cbn in *; congruence.
Qed.

(** X15. [getSectionDimensions] returns [null] exactly for the section
    names whose lower case is neither one of the six sections of the
    default table (cuff, sleeve, back, collar, front, assembly) nor a
    property every object inherits (["constructor"] or ["__proto__"] after
    lower-casing): the line number never decides whether a section has
    dimensions. *)
Theorem X15_section_dimensions_null lineNo sectionName :
  getSectionDimensions lineNo sectionName = JUndefined <->
  existsb (String.eqb (toLowerCase sectionName))
    (["cuff"; "sleeve"; "back"; "collar"; "front"; "assembly"] ++ OBJECT_PROTOTYPE_KEYS) = false.
Proof.
  unfold getSectionDimensions, js_get. set (k := toLowerCase sectionName).
  rewrite existsb_app.
  change ["cuff"; "sleeve"; "back"; "collar"; "front"; "assembly"] with (map fst SECTION_DIMENSIONS_DEFAULT).
  rewrite assoc_existsb. pose proof (line6_keys_default k) as Hsub.
  destruct (includes (toUpperCase lineNo) "LINE 6"); cbv beta iota;
  destruct (assoc k SECTION_DIMENSIONS_DEFAULT), (assoc k SECTION_DIMENSIONS_LINE6),
    (existsb (String.eqb k) OBJECT_PROTOTYPE_KEYS);
    cbn; split; try congruence.
  all: exfalso; apply Hsub; [discriminate|reflexivity].
Qed.

Lemma default_not_proto k :
  assoc k SECTION_DIMENSIONS_DEFAULT <> None -> existsb (String.eqb k) OBJECT_PROTOTYPE_KEYS = false.
Proof.
  intros H.
  assert (Hx : existsb (String.eqb k) (map fst SECTION_DIMENSIONS_DEFAULT) = true)
    by (rewrite assoc_existsb; destruct (assoc k SECTION_DIMENSIONS_DEFAULT); congruence).
  apply existsb_exists in Hx as [x [Hx Hk]]. apply String.eqb_eq in Hk. subst k.
  cbn in Hx. repeat (destruct Hx as [<-|Hx]; [reflexivity|]). contradiction.
Qed.

(** X16. The line number changes the dimensions of the cuff, sleeve and
    collar sections only: for any other section a ["LINE 6"] line gets the
    same result as any other line. *)
Theorem X16_line6_only_cuff_sleeve_collar lineNo1 lineNo2 sectionName :
  existsb (String.eqb (toLowerCase sectionName)) ["cuff"; "sleeve"; "collar"] = false ->
  getSectionDimensions lineNo1 sectionName = getSectionDimensions lineNo2 sectionName.
Proof.
  unfold getSectionDimensions, js_get. set (k := toLowerCase sectionName). cbn [existsb].
  intros H. apply orb_false_iff in H as [H1 H]. apply orb_false_iff in H as [H2 H].
  apply orb_false_iff in H as [H3 _].
  assert (E : assoc k SECTION_DIMENSIONS_LINE6 = None) by (cbn; now rewrite H1, H2, H3).
  destruct (includes (toUpperCase lineNo1) "LINE 6"), (includes (toUpperCase lineNo2) "LINE 6");
    cbv beta iota; rewrite ?E; try reflexivity;
    (destruct (assoc k SECTION_DIMENSIONS_DEFAULT) eqn:ED;
     [rewrite (default_not_proto k) by congruence|]); try reflexivity;
    destruct (existsb _ _); reflexivity.
Qed.

(* ------------------------------------------------------------------ *)
(** ** The line store (src/src/store/useLineStore.ts)

    The store's own [MachinePosition] (src/src/types/index.ts) has a
    string id and metre coordinates; it is [SMachinePosition] here, with
    coordinates in [Q]. The only yaw angles the store writes are [0] and
    [Math.PI]. Dates ([new Date().toISOString()]) and [generateId()] are
    arguments of the actions that read them. *)

Inductive StoreAngle := ANGLE_0 | ANGLE_PI.

Record SMachinePosition := mkSMachinePosition {
  smp_id : string;
  smp_operation : Operation;
  pos_x : Q; pos_y : Q; pos_z : Q;
  rot_x : Q; rot_y : StoreAngle; rot_z : Q
}.

Record UIState := mkUIState {
  isMachineInfoOpen : bool;
  isFileUploadOpen : bool;
  isLoading : bool;
  loadingMessage : string
}.

Record LineData := mkLineData {
  ld_id : string;
  lineNo : string;
  styleNo : string;
  createdAt : string;
  updatedAt : string;
  ld_operations : list Operation;
  ld_machineLayout : list SMachinePosition;
  totalSMV : Q
}.

Record Store := mkStore {
  currentLine : option LineData;
  savedLines : list LineData;
  st_operations : list Operation;
  machineLayout : list SMachinePosition;
  selectedMachine : option SMachinePosition;
  ui : UIState
}.

Definition MACHINE_SPACING : Q := 5 # 2.
Definition ROW_OFFSET : Q := 3.

(** [`${index}`] *)
Definition nat_to_string (n : nat) : string := NilEmpty.string_of_uint (Nat.to_uint n).

(** The entry [operations.forEach] builds for the operation at [index]
    (lines 86-107). *)
Definition layout_entry (index : nat) (op : Operation) : SMachinePosition :=
  let row := (index mod 2)%nat in
  let col := (index / 2)%nat in
  {| smp_id := "machine_" ++ nat_to_string index ++ "_" ++ op_no op;
     smp_operation := op;
     pos_x := inject_Z (Z.of_nat col) * MACHINE_SPACING;
     pos_y := 0;
     pos_z := inject_Z (Z.of_nat row) * ROW_OFFSET - ROW_OFFSET / 2;
     rot_x := 0;
     rot_y := if (row =? 1)%nat then ANGLE_PI else ANGLE_0;
     rot_z := 0 |}.

Fixpoint layout_from (index : nat) (ops : list Operation) : list SMachinePosition :=
  match ops with
  | [] => []
  | op :: rest => layout_entry index op :: layout_from (S index) rest
  end.

Definition set_machineLayout (l : list SMachinePosition) (st : Store) : Store :=
  {| currentLine := currentLine st; savedLines := savedLines st; st_operations := st_operations st;
     machineLayout := l; selectedMachine := selectedMachine st; ui := ui st |}.

(** [generateMachineLayout] (lines 83-111): the layout, and the store
    with [machineLayout] set to it. *)
Definition generateMachineLayout (operations : list Operation) (st : Store) : list SMachinePosition * Store :=
  let layout := layout_from 0 operations in
  (layout, set_machineLayout layout st).

(** [createLine] (lines 114-131); [newId] is [generateId()] and [now]
    the date of both timestamps. *)
Definition createLine (newId now : string) (lineNo styleNo : string) (operations : list Operation)
    (st : Store) : LineData * Store :=
  let '(layout, st1) := generateMachineLayout operations st in
  let totalSMV := fold_left (fun sum op => (sum + smv op)%Q) operations 0%Q in
  let line := {| ld_id := newId; lineNo := lineNo; styleNo := styleNo;
                 createdAt := now; updatedAt := now;
                 ld_operations := operations; ld_machineLayout := layout; totalSMV := totalSMV |} in
  (line, {| currentLine := Some line; savedLines := savedLines st1; st_operations := operations;
            machineLayout := layout; selectedMachine := selectedMachine st1; ui := ui st1 |}).

(** [Array.prototype.findIndex], [None] for [-1]. *)
Fixpoint findIndex {A} (p : A -> bool) (l : list A) : option nat :=
  match l with
  | [] => None
  | x :: rest => if p x then Some 0%nat else option_map S (findIndex p rest)
  end.

(** [a[n] = x] for an index [n] inside the array. *)
Fixpoint list_set {A} (l : list A) (n : nat) (x : A) : list A :=
  match l, n with
  | [], _ => []
  | _ :: rest, O => x :: rest
  | y :: rest, S n' => y :: list_set rest n' x
  end.

Definition with_updatedAt (now : string) (line : LineData) : LineData :=
  {| ld_id := ld_id line; lineNo := lineNo line; styleNo := styleNo line; createdAt := createdAt line;
     updatedAt := now; ld_operations := ld_operations line; ld_machineLayout := ld_machineLayout line;
     totalSMV := totalSMV line |}.

Definition set_savedLines (l : list LineData) (st : Store) : Store :=
  {| currentLine := currentLine st; savedLines := l; st_operations := st_operations st;
     machineLayout := machineLayout st; selectedMachine := selectedMachine st; ui := ui st |}.

(** [saveLine] (lines 134-147). *)
Definition saveLine (now : string) (line : LineData) (st : Store) : Store :=
  let updatedLine := with_updatedAt now line in
  match findIndex (fun l => String.eqb (ld_id l) (ld_id line)) (savedLines st) with
  | Some existingIndex => set_savedLines (list_set (savedLines st) existingIndex updatedLine) st
  | None => set_savedLines (savedLines st ++ [updatedLine]) st
  end.

(** [deleteLine] (lines 150-155). *)
Definition deleteLine (id : string) (st : Store) : Store :=
  {| currentLine := match currentLine st with
                    | Some l => if String.eqb (ld_id l) id then None else Some l
                    | None => None
                    end;
     savedLines := filter (fun l => negb (String.eqb (ld_id l) id)) (savedLines st);
     st_operations := st_operations st; machineLayout := machineLayout st;
     selectedMachine := selectedMachine st; ui := ui st |}.

(** [loadLine] (lines 158-170). *)
Definition loadLine (id : string) (st : Store) : Store :=
  match find (fun l => String.eqb (ld_id l) id) (savedLines st) with
  | Some line =>
      {| currentLine := Some line; savedLines := savedLines st;
         st_operations := ld_operations line; machineLayout := ld_machineLayout line;
         selectedMachine := None; ui := ui st |}
  | None => st
  end.

(** [setSelectedMachine] (lines 76-80). *)
Definition setSelectedMachine (machine : option SMachinePosition) (st : Store) : Store :=
  {| currentLine := currentLine st; savedLines := savedLines st; st_operations := st_operations st;
     machineLayout := machineLayout st; selectedMachine := machine;
     ui := {| isMachineInfoOpen := match machine with Some _ => true | None => false end;
              isFileUploadOpen := isFileUploadOpen (ui st); isLoading := isLoading (ui st);
              loadingMessage := loadingMessage (ui st) |} |}.

Lemma nth_layout_from k ops i m :
  nth_error (layout_from k ops) i = Some m -> exists op, nth_error ops i = Some op /\ m = layout_entry (k + i) op.
Proof.
  revert k i. induction ops as [|op rest IH]; intros k i H; [destruct i; discriminate|].
  destruct i as [|i]; cbn in H.
  - injection H as <-. exists op. split; [reflexivity|]. now rewrite Nat.add_0_r.
  - destruct (IH (S k) i H) as [op' [H1 H2]]. exists op'. split; [exact H1|].
    now rewrite H2, Nat.add_succ_r.
Qed.

(** X17. [generateMachineLayout] puts every machine on the floor in one of
    two rows, [z = -1.5] facing [0] or [z = 1.5] facing [Math.PI], so the
    rows face each other; and no two machines share a position. *)
Theorem X17_layout_positions ops st i j m1 m2 :
  nth_error (fst (generateMachineLayout ops st)) i = Some m1 ->
  nth_error (fst (generateMachineLayout ops st)) j = Some m2 ->
  (pos_y m1 == 0 /\
   ((pos_z m1 == -(3#2) /\ rot_y m1 = ANGLE_0) \/ (pos_z m1 == 3#2 /\ rot_y m1 = ANGLE_PI)))%Q /\
  (i <> j -> ~ (pos_x m1 == pos_x m2 /\ pos_z m1 == pos_z m2)%Q).
Proof.
  cbn [generateMachineLayout fst]. intros H1 H2.
  apply nth_layout_from in H1 as [op1 [_ ->]]. apply nth_layout_from in H2 as [op2 [_ ->]].
  cbn [Nat.add]. unfold layout_entry; cbn [pos_x pos_y pos_z rot_y].
  split.
  - split; [reflexivity|].
    pose proof (Nat.mod_upper_bound i 2 ltac:(lia)) as Hb.
    destruct (i mod 2)%nat as [|[|k]] eqn:E; [left|right|lia]; (split; [reflexivity|reflexivity]).
  - intros Hij [Hx Hz].
    pose proof (Nat.div_mod i 2 ltac:(lia)). pose proof (Nat.div_mod j 2 ltac:(lia)).
    pose proof (Nat.mod_upper_bound i 2 ltac:(lia)). pose proof (Nat.mod_upper_bound j 2 ltac:(lia)).
    set (a := (i / 2)%nat) in *. set (b := (j / 2)%nat) in *.
    set (c := (i mod 2)%nat) in *. set (d := (j mod 2)%nat) in *. clearbody a b c d.
    unfold Qeq, MACHINE_SPACING, ROW_OFFSET in Hx, Hz. cbn in Hx, Hz. lia.
Qed.

Lemma string_app_inv_l (p a b : string) : (p ++ a)%string = (p ++ b)%string -> a = b.
Proof. induction p as [|c p IH]; cbn; [auto|]. intros H. injection H. exact IH. Qed.

Definition is_underscore (c : ascii) : bool := Ascii.eqb c "_".

Lemma split_at_underscore a b x y :
  any_char is_underscore a = false -> any_char is_underscore b = false ->
  (a ++ String "_" x)%string = (b ++ String "_" y)%string -> a = b.
Proof.
  revert b. induction a as [|c a IH]; intros b Ha Hb H; destruct b as [|c' b]; cbn in *.
  - reflexivity.
  - injection H as <- _. discriminate.
  - injection H as -> _. discriminate.
  - apply orb_false_iff in Ha as [_ Ha]. apply orb_false_iff in Hb as [_ Hb].
    injection H as <- H. f_equal. exact (IH b Ha Hb H).
Qed.

Lemma nat_to_string_digits n : any_char is_underscore (nat_to_string n) = false.
Proof. unfold nat_to_string. generalize (Nat.to_uint n) as d. induction d; cbn; auto. Qed.

Lemma nat_to_string_inj i j : nat_to_string i = nat_to_string j -> i = j.
Proof.
  unfold nat_to_string. intros H.
  apply (f_equal NilEmpty.uint_of_string) in H. rewrite !NilEmpty.usu in H.
  injection H as H. apply (f_equal Nat.of_uint) in H. now rewrite !Unsigned.of_to in H.
Qed.

(** X18. The ids [`machine_${index}_${op.op_no}`] of a generated layout
    are pairwise distinct, whatever the operation numbers (even ones that
    contain underscores): the decimal index has no underscore, so it is
    read back up to the first one. *)
Theorem X18_layout_ids_distinct ops st i j m1 m2 :
  nth_error (fst (generateMachineLayout ops st)) i = Some m1 ->
  nth_error (fst (generateMachineLayout ops st)) j = Some m2 ->
  i <> j -> smp_id m1 <> smp_id m2.
Proof.
  cbn [generateMachineLayout fst]. intros H1 H2 Hij Hid.
  apply nth_layout_from in H1 as [op1 [_ ->]]. apply nth_layout_from in H2 as [op2 [_ ->]].
  cbn in Hid. apply (string_app_inv_l "machine_") in Hid.
  apply split_at_underscore in Hid; try apply nat_to_string_digits.
  apply nat_to_string_inj in Hid. contradiction.
Qed.

Section SavedLines.

Variable id : string.
Let p (l : LineData) : bool := String.eqb (ld_id l) id.

Lemma find_list_set L k u :
  findIndex p L = Some k -> p u = true -> find p (list_set L k u) = Some u.
Proof.
  revert k. induction L as [|x rest IH]; intros k Hk Hu; [discriminate|].
  cbn in Hk. destruct (p x) eqn:Ex.
  - injection Hk as <-. cbn. now rewrite Hu.
  - destruct (findIndex p rest) as [k'|] eqn:E; [|discriminate]. injection Hk as <-.
    cbn. rewrite Ex. exact (IH k' eq_refl Hu).
Qed.

Lemma findIndex_none_find L : findIndex p L = None -> find p L = None.
Proof.
  induction L as [|x rest IH]; [reflexivity|]. cbn. destruct (p x); [discriminate|].
  destruct (findIndex p rest); [discriminate|]. intros _. exact (IH eq_refl).
Qed.

Lemma find_app_none L u : find p L = None -> p u = true -> find p (L ++ [u]) = Some u.
Proof.
  induction L as [|x rest IH]; intros H Hu; cbn in *; [now rewrite Hu|].
  destruct (p x); [discriminate|]. exact (IH H Hu).
Qed.

Lemma findIndex_list_set L k u :
  findIndex p L = Some k -> p u = true -> findIndex p (list_set L k u) = Some k.
Proof.
  revert k. induction L as [|x rest IH]; intros k Hk Hu; [discriminate|].
  cbn in Hk. destruct (p x) eqn:Ex.
  - injection Hk as <-. cbn. now rewrite Hu.
  - destruct (findIndex p rest) as [k'|] eqn:E; [|discriminate]. injection Hk as <-.
    cbn. rewrite Ex, (IH k' eq_refl Hu). reflexivity.
Qed.

Lemma list_set_twice {A} (L : list A) k u v : list_set (list_set L k u) k v = list_set L k v.
Proof.
  revert k. induction L as [|x rest IH]; intros [|k]; cbn; try reflexivity. now rewrite IH.
Qed.

Lemma findIndex_app_none L u :
  findIndex p L = None -> p u = true -> findIndex p (L ++ [u]) = Some (List.length L).
Proof.
  induction L as [|x rest IH]; intros H Hu; cbn in *; [now rewrite Hu|].
  destruct (p x); [discriminate|]. destruct (findIndex p rest); [discriminate|].
  now rewrite (IH eq_refl Hu).
Qed.

Lemma list_set_app_end {A} (L : list A) u v : list_set (L ++ [u]) (List.length L) v = L ++ [v].
Proof. induction L as [|x rest IH]; cbn; [reflexivity|]. now rewrite IH. Qed.


Lemma findIndex_existsb L : findIndex p L = None <-> existsb p L = false.
Proof.
  induction L as [|x rest IH]; cbn; [tauto|]. destruct (p x); cbn; [split; discriminate|].
  destruct (findIndex p rest); cbn; rewrite <- IH; split; congruence.
Qed.

End SavedLines.

Lemma p_line now line : String.eqb (ld_id (with_updatedAt now line)) (ld_id line) = true.
Proof. apply String.eqb_refl. Qed.

(** X19. Saving a line and then loading it by its id makes the saved copy
    (with the new [updatedAt]) the current line, restores its operations
    and layout and clears the selection. *)
Theorem X19_save_then_load now line st :
  loadLine (ld_id line) (saveLine now line st) =
  {| currentLine := Some (with_updatedAt now line);
     savedLines := savedLines (saveLine now line st);
     st_operations := ld_operations line; machineLayout := ld_machineLayout line;
     selectedMachine := None; ui := ui st |}.
Proof.
  unfold loadLine, saveLine.
  destruct (findIndex _ (savedLines st)) as [k|] eqn:Ek; cbn [savedLines set_savedLines].
  - rewrite (find_list_set (ld_id line) _ k _ Ek (p_line now line)). reflexivity.
  - rewrite (find_app_none (ld_id line) _ _ (findIndex_none_find (ld_id line) _ Ek) (p_line now line)).
    reflexivity.
Qed.


(** X21. Saving the same line twice leaves the store as one save at the
    later time would: the second save replaces the first saved copy. *)
Theorem X21_save_twice now1 now2 line st :
  saveLine now2 line (saveLine now1 line st) = saveLine now2 line st.
Proof.
  unfold saveLine at 2.
  destruct (findIndex _ (savedLines st)) as [k|] eqn:Ek.
  - unfold saveLine. cbn [savedLines set_savedLines].
    rewrite (findIndex_list_set (ld_id line) _ k _ Ek (p_line now1 line)), Ek.
    now rewrite list_set_twice.
  - unfold saveLine. cbn [savedLines set_savedLines].
    rewrite (findIndex_app_none (ld_id line) _ _ Ek (p_line now1 line)), Ek.
    now rewrite list_set_app_end.
Qed.

Lemma find_filter_negb (q : LineData -> bool) L : find q (filter (fun l => negb (q l)) L) = None.
Proof.
  induction L as [|x rest IH]; [reflexivity|]. cbn. destruct (q x) eqn:E; cbn; [exact IH|].
  rewrite E. exact IH.
Qed.

(** X22. After [deleteLine id] no saved line has that id, every other
    saved line is kept, and loading the id changes nothing. *)
Theorem X22_delete_line id st :
  (forall l, In l (savedLines (deleteLine id st)) <-> In l (savedLines st) /\ ld_id l <> id) /\
  loadLine id (deleteLine id st) = deleteLine id st.
Proof.
  split.
  - intros l. cbn [deleteLine savedLines]. rewrite filter_In.
    destruct (String.eqb_spec (ld_id l) id); cbn; intuition congruence.
  - unfold loadLine. cbn [deleteLine savedLines].
    rewrite (find_filter_negb (fun l => String.eqb (ld_id l) id)). reflexivity.
Qed.

(** X23. Creating a line with a fresh id and saving it, as the create-line
    page does, appends exactly that line (stamped with the save time) to
    the saved lines and makes the layout of [generateMachineLayout] the
    store's layout; the current line keeps the creation time as its
    [updatedAt]. *)
Theorem X23_create_then_save newId now1 now2 lineNo styleNo ops st :
  ~ In newId (map ld_id (savedLines st)) ->
  let line := fst (createLine newId now1 lineNo styleNo ops st) in
  let st2 := saveLine now2 line (snd (createLine newId now1 lineNo styleNo ops st)) in
  savedLines st2 = savedLines st ++ [with_updatedAt now2 line] /\
  machineLayout st2 = fst (generateMachineLayout ops st) /\
  ld_machineLayout line = fst (generateMachineLayout ops st) /\
  currentLine st2 = Some line /\ updatedAt line = now1.
Proof.
  intros Hfresh. cbv zeta. unfold createLine, generateMachineLayout. cbn [fst snd].
  unfold saveLine. cbn [savedLines set_machineLayout ld_id].
  assert (Hn : findIndex (fun l => String.eqb (ld_id l) newId) (savedLines st) = None).
  { apply (findIndex_existsb newId). destruct (existsb _ _) eqn:E; [|reflexivity].
    apply existsb_exists in E as [l [Hl Hid]]. apply String.eqb_eq in Hid.
    exfalso. apply Hfresh. rewrite <- Hid. now apply in_map. }
  rewrite Hn. cbn. repeat split; reflexivity.
Qed.

(** X24. [loadLine] of a saved id clears the selected machine but leaves
    [ui.isMachineInfoOpen] as it was: after [setSelectedMachine] of a
    machine, loading a line leaves the info panel flagged open with no
    machine selected. *)
Theorem X24_load_keeps_info_open id m st :
  find (fun l => String.eqb (ld_id l) id) (savedLines st) <> None ->
  selectedMachine (loadLine id (setSelectedMachine (Some m) st)) = None /\
  isMachineInfoOpen (ui (loadLine id (setSelectedMachine (Some m) st))) = true.
Proof.
  intros H. unfold loadLine. cbn [setSelectedMachine savedLines].
  destruct (find _ (savedLines st)); [|contradiction]. split; reflexivity.
Qed.

Definition sample_ui : UIState := mkUIState false false false "".

Definition sample_store : Store := mkStore None [] [] [] None sample_ui.

Definition sample_line : LineData :=
  mkLineData "line-1" "LINE 6" "ST-1" "t0" "t0" sample_ops3 (layout_from 0 sample_ops3) 3.

Definition sample_store2 : Store := mkStore None [sample_line] [] [] None sample_ui.

Lemma X16_line6_only_cuff_sleeve_collar_witness :
  existsb (String.eqb (toLowerCase "Back")) ["cuff"; "sleeve"; "collar"] = false /\
  getSectionDimensions "LINE 6" "Back" = getSectionDimensions "LINE 1" "Back".
Proof. split; [reflexivity|apply X16_line6_only_cuff_sleeve_collar; reflexivity]. Defined.

Lemma X17_layout_positions_witness :
  exists m1 m2,
  nth_error (fst (generateMachineLayout sample_ops3 sample_store)) 0 = Some m1 /\
  nth_error (fst (generateMachineLayout sample_ops3 sample_store)) 2 = Some m2 /\
  ((pos_y m1 == 0 /\
   ((pos_z m1 == -(3#2) /\ rot_y m1 = ANGLE_0) \/ (pos_z m1 == 3#2 /\ rot_y m1 = ANGLE_PI)))%Q /\
  (0 <> 2 -> ~ (pos_x m1 == pos_x m2 /\ pos_z m1 == pos_z m2)%Q))%nat.
Proof.
  eexists. eexists. split; [reflexivity|]. split; [reflexivity|].
  apply (X17_layout_positions sample_ops3 sample_store 0 2); reflexivity.
Defined.

Lemma X18_layout_ids_distinct_witness :
  exists m1 m2,
  nth_error (fst (generateMachineLayout sample_ops3 sample_store)) 0 = Some m1 /\
  nth_error (fst (generateMachineLayout sample_ops3 sample_store)) 1 = Some m2 /\
  (0 <> 1)%nat /\ smp_id m1 <> smp_id m2.
Proof.
  eexists. eexists. split; [reflexivity|]. split; [reflexivity|]. split; [discriminate|].
  apply (X18_layout_ids_distinct sample_ops3 sample_store 0 1); [reflexivity|reflexivity|discriminate].
Defined.


Lemma X23_create_then_save_witness :
  ~ In "line-2" (map ld_id (savedLines sample_store2)) /\
  (let line := fst (createLine "line-2" "t1" "LINE 7" "ST-2" sample_ops3 sample_store2) in
   let st2 := saveLine "t2" line (snd (createLine "line-2" "t1" "LINE 7" "ST-2" sample_ops3 sample_store2)) in
   savedLines st2 = savedLines sample_store2 ++ [with_updatedAt "t2" line] /\
   machineLayout st2 = fst (generateMachineLayout sample_ops3 sample_store2) /\
   ld_machineLayout line = fst (generateMachineLayout sample_ops3 sample_store2) /\
   currentLine st2 = Some line /\ updatedAt line = "t1").
Proof.
  assert (H : ~ In "line-2" (map ld_id (savedLines sample_store2))) by (intros [E|[]]; discriminate).
  split; [exact H|]. exact (X23_create_then_save "line-2" "t1" "t2" "LINE 7" "ST-2" sample_ops3 sample_store2 H).
Defined.

Lemma X24_load_keeps_info_open_witness :
  find (fun l => String.eqb (ld_id l) "line-1") (savedLines sample_store2) <> None /\
  selectedMachine (loadLine "line-1" (setSelectedMachine (Some (layout_entry 0 snls_op)) sample_store2)) = None /\
  isMachineInfoOpen (ui (loadLine "line-1" (setSelectedMachine (Some (layout_entry 0 snls_op)) sample_store2))) = true.
Proof.
  assert (H : find (fun l => String.eqb (ld_id l) "line-1") (savedLines sample_store2) <> None) by discriminate.
  split; [exact H|]. exact (X24_load_keeps_info_open "line-1" (layout_entry 0 snls_op) sample_store2 H).
Defined.

(** ** The camera controller (src/unnamed/part_003)

    Both effects of [CameraController] compute the bounds of the layout
    with [Math.min]/[Math.max] folds started at [Infinity]/[-Infinity];
    [None] stands for that start value, which the first machine replaces.
    An effect that sets no target returns [None]; otherwise it returns
    [(targetPosition, targetLookAt)]. *)

Record Vec3 := mkVec3 { vx : Q; vy : Q; vz : Q }.

Definition vec_eq (a b : Vec3) : Prop := (vx a == vx b /\ vy a == vy b /\ vz a == vz b)%Q.

Definition bound_step (b : option (Q * Q * Q * Q)) (m : SMachinePosition) : option (Q * Q * Q * Q) :=
  match b with
  | None => Some (pos_x m, pos_x m, pos_z m, pos_z m)
  | Some (minX, maxX, minZ, maxZ) =>
      Some (Qmin minX (pos_x m), Qmax maxX (pos_x m), Qmin minZ (pos_z m), Qmax maxZ (pos_z m))
  end.

Definition layout_bounds (machineLayout : list SMachinePosition) : option (Q * Q * Q * Q) :=
  fold_left bound_step machineLayout None.

(** The effect on [[machineLayout]]. *)
Definition layout_effect_target (machineLayout : list SMachinePosition) : option (Vec3 * Vec3) :=
  if (List.length machineLayout =? 0)%nat then None else
  match layout_bounds machineLayout with
  | None => None
  | Some (minX, maxX, minZ, maxZ) =>
      let centerX := ((minX + maxX) / 2)%Q in
      let centerZ := ((minZ + maxZ) / 2)%Q in
      let width := (maxX - minX + 5)%Q in
      let depth := (maxZ - minZ + 5)%Q in
      let maxDim := Qmax width depth in
      Some (mkVec3 (centerX + maxDim * (5#10)) (maxDim * (6#10)) (centerZ + maxDim * (8#10)),
            mkVec3 centerX 0 centerZ)
  end.

(** The effect on [[selectedMachine, machineLayout]]. *)
Definition selection_effect_target (selectedMachine : option SMachinePosition)
    (machineLayout : list SMachinePosition) : option (Vec3 * Vec3) :=
  match selectedMachine with
  | Some m =>
      let x := pos_x m in let z := pos_z m in
      Some (mkVec3 (x + 3) 4 (z + 5), mkVec3 x (5#10) z)
  | None =>
      if (0 <? List.length machineLayout)%nat then
        match layout_bounds machineLayout with
        | None => None
        | Some (minX, maxX, minZ, maxZ) =>
            let centerX := ((minX + maxX) / 2)%Q in
            let centerZ := ((minZ + maxZ) / 2)%Q in
            let maxDim := (Qmax (maxX - minX) (maxZ - minZ) + 5)%Q in
            Some (mkVec3 (centerX + maxDim * (5#10)) (maxDim * (6#10)) (centerZ + maxDim * (8#10)),
                  mkVec3 centerX 0 centerZ)
        end
      else None
  end.

Definition bounds_ordered (b : option (Q * Q * Q * Q)) : Prop :=
  match b with
  | None => False
  | Some (minX, maxX, minZ, maxZ) => (minX <= maxX /\ minZ <= maxZ)%Q
  end.

Lemma bound_step_ordered b m : bounds_ordered b -> bounds_ordered (bound_step b m).
Proof.
  destruct b as [[[[a c] d] e]|]; [|contradiction]. cbn. intros [H1 H2].
  split.
  - apply (Qle_trans _ a); [apply Q.le_min_l|]. apply (Qle_trans _ c); [exact H1|apply Q.le_max_l].
  - apply (Qle_trans _ d); [apply Q.le_min_l|]. apply (Qle_trans _ e); [exact H2|apply Q.le_max_l].
Qed.

Lemma layout_bounds_ordered m rest : bounds_ordered (layout_bounds (m :: rest)).
Proof.
  unfold layout_bounds. cbn [fold_left].
  assert (H0 : bounds_ordered (bound_step None m)) by (cbn; split; apply Qle_refl).
  revert H0. generalize (bound_step None m) as b.
  induction rest as [|m' rest IH]; intros b Hb; cbn [fold_left]; [exact Hb|].
  apply IH, bound_step_ordered, Hb.
Qed.

(** X25. The two overview computations of [CameraController] agree: for a
    non-empty layout the effect run on a layout change and the effect run
    when the selection is cleared set the same camera position and look-at
    point ([max(w + 5, d + 5)] against [max(w, d) + 5]), and the camera
    stands at least 3 above the floor; for an empty layout neither sets a
    target. *)
Theorem X25_overview_targets_agree machineLayout :
  match layout_effect_target machineLayout, selection_effect_target None machineLayout with
  | Some (p1, a1), Some (p2, a2) => vec_eq p1 p2 /\ vec_eq a1 a2 /\ (3 <= vy p1)%Q
  | None, None => machineLayout = []
  | _, _ => False
  end.
Proof.
  destruct machineLayout as [|m rest]; [reflexivity|].
  unfold layout_effect_target, selection_effect_target. cbn [List.length Nat.eqb Nat.ltb Nat.leb].
  pose proof (layout_bounds_ordered m rest) as Hb.
  destruct (layout_bounds (m :: rest)) as [[[[minX maxX] minZ] maxZ]|]; [|contradiction].
  destruct Hb as [H1 H2]. unfold vec_eq; cbn [vx vy vz].
  assert (HM : (Qmax (maxX - minX + 5) (maxZ - minZ + 5) == Qmax (maxX - minX) (maxZ - minZ) + 5)%Q)
    by apply Q.plus_max_distr_r.
  rewrite HM. split; [repeat split; reflexivity|]. split; [repeat split; reflexivity|].
  destruct (Q.max_spec (maxX - minX) (maxZ - minZ)) as [[_ E]|[_ E]]; rewrite E; lra.
Qed.
